(** * Proof-of-Relay keeper of pocket-core: a shallow embedding

    The development follows [x/pocketcore/keeper/proof.go] and the
    network-identifier validation of the shared module code.  Go's [int64] is
    a [Z] with its wrap-around written out, byte slices are lists of [Z] in
    [0, 256), strings are [string], Go maps and the key-value store are
    finite maps, and a Go panic is an explicit outcome. *)

From Stdlib Require Import ZArith List String Ascii Bool Lia.
From stdpp Require Import base option list gmap strings fin_maps.

Local Open Scope string_scope.
Local Open Scope Z_scope.

(** ** Outcomes *)

(** A Go call that either returns or panics. *)
Inductive Result (A : Type) : Type :=
| Ok (a : A)
| Panic (reason : string).
Arguments Ok {A} a.
Arguments Panic {A} reason.

#[global] Instance Result_ret : MRet Result := fun _ a => Ok a.

#[global] Instance Result_bind : MBind Result := fun _ _ k r =>
  match r with
  | Ok a => k a
  | Panic why => Panic why
  end.

(** A Go pair [(value, err)]: the value is meaningful when [err == nil]. *)
Inductive Except (E A : Type) : Type :=
| Success (a : A)
| Failure (e : E).
Arguments Success {E A} a.
Arguments Failure {E A} e.

(** [if err != nil { panic(err) }] *)
Definition must {E A} (why : string) (r : Except E A) : Result A :=
  match r with
  | Success a => Ok a
  | Failure _ => Panic why
  end.

(** ** Go's standard library, as far as the keeper uses it *)

Module GoInt64.
Definition min : Z := - 2 ^ 63.
Definition max : Z := 2 ^ 63 - 1.

(** Two's complement wrap-around of an [int64] result. *)
Definition wrap (z : Z) : Z := (z + 2 ^ 63) mod 2 ^ 64 - 2 ^ 63.

Definition add (a b : Z) : Z := wrap (a + b).
Definition sub (a b : Z) : Z := wrap (a - b).
Definition mul (a b : Z) : Z := wrap (a * b).

(** [a / b] truncates toward zero; a zero divisor is a run-time panic. *)
Definition div (a b : Z) : Result Z :=
  if b =? 0 then Panic "integer divide by zero" else Ok (wrap (Z.quot a b)).

Definition in_range (z : Z) : Prop := min <= z <= max.
End GoInt64.

Definition byte_of_ascii (c : ascii) : Z := Z.of_N (N_of_ascii c).

Fixpoint bytes_of_string (s : string) : list Z :=
  match s with
  | EmptyString => []
  | String c s' => byte_of_ascii c :: bytes_of_string s'
  end.

Fixpoint drop_string (n : nat) (s : string) : string :=
  match n, s with
  | O, _ => s
  | S n', EmptyString => EmptyString
  | S n', String _ s' => drop_string n' s'
  end.

Fixpoint take_string (n : nat) (s : string) : string :=
  match n, s with
  | O, _ => EmptyString
  | S n', EmptyString => EmptyString
  | S n', String c s' => String c (take_string n' s')
  end.

(** [s[:n]]: slicing past the end of a string panics. *)
Definition slice_to (s : string) (n : nat) : Result string :=
  if (n <=? String.length s)%nat then Ok (take_string n s)
  else Panic "slice bounds out of range".

(** [s[i:]] *)
Definition slice_from (s : string) (i : nat) : Result string :=
  if (i <=? String.length s)%nat then Ok (drop_string i s)
  else Panic "slice bounds out of range".

Module hex.
Definition hextable : string := "0123456789abcdef".

Definition hexchar (d : Z) : ascii :=
  match String.get (Z.to_nat d) hextable with
  | Some c => c
  | None => "0"%char
  end.

(** [hex.EncodeToString]: two lower-case digits per byte. *)
Fixpoint EncodeToString (src : list Z) : string :=
  match src with
  | [] => EmptyString
  | b :: rest =>
      String (hexchar (Z.shiftr b 4))
        (String (hexchar (Z.land b 15)) (EncodeToString rest))
  end.

Inductive Error := InvalidByteError (b : Z) | ErrLength.

(** [fromHexChar]: digits of either case. *)
Definition fromHexChar (c : ascii) : option Z :=
  let b := byte_of_ascii c in
  if (48 <=? b) && (b <=? 57) then Some (b - 48)
  else if (97 <=? b) && (b <=? 102) then Some (b - 97 + 10)
  else if (65 <=? b) && (b <=? 70) then Some (b - 65 + 10)
  else None.

(** [hex.Decode]: pairs of digits from the left; a bad character is
    reported before an odd length is. *)
Fixpoint Decode (src : string) : Except Error (list Z) :=
  match src with
  | EmptyString => Success []
  | String p EmptyString =>
      match fromHexChar p with
      | None => Failure (InvalidByteError (byte_of_ascii p))
      | Some _ => Failure ErrLength
      end
  | String p (String q rest) =>
      match fromHexChar p with
      | None => Failure (InvalidByteError (byte_of_ascii p))
      | Some a =>
          match fromHexChar q with
          | None => Failure (InvalidByteError (byte_of_ascii q))
          | Some b =>
              match Decode rest with
              | Success bs => Success (Z.lor (Z.shiftl a 4) b :: bs)
              | Failure e => Failure e
              end
          end
      end
  end.

Definition DecodeString (s : string) : Except Error (list Z) := Decode s.
End hex.

Module strconv.
Inductive NumError := ErrSyntax | ErrRange.

(** The value of one character in [ParseUint]: decimal digits, then
    letters of either case counted from ten. *)
Definition digit (c : ascii) : option Z :=
  let b := byte_of_ascii c in
  if (48 <=? b) && (b <=? 57) then Some (b - 48)
  else
    let l := Z.lor b 32 in
    if (97 <=? l) && (l <=? 122) then Some (l - 97 + 10)
    else None.

Definition maxUint64 : Z := 2 ^ 64 - 1.

(** The digit loop of [ParseUint(s, 16, 64)] with accumulator [n]. *)
Fixpoint parseUint16_loop (s : string) (n : Z) : Except NumError Z :=
  match s with
  | EmptyString => Success n
  | String c rest =>
      match digit c with
      | None => Failure ErrSyntax
      | Some d =>
          if 16 <=? d then Failure ErrSyntax
          else if Z.quot maxUint64 16 + 1 <=? n then Failure ErrRange
          else
            let n1 := n * 16 + d in
            if maxUint64 <? n1 then Failure ErrRange
            else parseUint16_loop rest n1
      end
  end.

Definition ParseUint16_64 (s : string) : Except NumError Z :=
  match s with
  | EmptyString => Failure ErrSyntax
  | _ => parseUint16_loop s 0
  end.

(** [strconv.ParseInt(s, 16, 64)]: an optional sign, the unsigned
    digits, then the signed range check against [1 << 63]. *)
Definition ParseInt16_64 (s : string) : Except NumError Z :=
  match s with
  | EmptyString => Failure ErrSyntax
  | String c rest =>
      let '(neg, body) :=
        if Ascii.eqb c "+"%char then (false, rest)
        else if Ascii.eqb c "-"%char then (true, rest)
        else (false, s) in
      match ParseUint16_64 body with
      | Failure e => Failure e
      | Success un =>
          let cutoff := 2 ^ 63 in
          if negb neg && (cutoff <=? un) then Failure ErrRange
          else if neg && (cutoff <? un) then Failure ErrRange
          else Success (if neg then - un else un)
      end
  end.
End strconv.

(** ** SHA3-256 *)

(** Modelled from the spec: [pc.SHA3FromBytes] is not among the sources; the
    specification names the hash as SHA3-256, which is FIPS 202 with rate
    136 bytes, domain byte 0x06 and a 32 byte digest over Keccak-f[1600]. *)
Module SHA3.
Definition mask64 : Z := 2 ^ 64 - 1.

Definition rotl64 (x n : Z) : Z :=
  Z.land (Z.lor (Z.shiftl x n) (Z.shiftr x (64 - n))) mask64.

(** The 25 lanes of the state, lane [(x, y)] at position [x + 5 y]. *)
Definition lane (st : list Z) (x y : Z) : Z :=
  nth (Z.to_nat (x mod 5 + 5 * (y mod 5))) st 0.

Definition positions : list Z := map Z.of_nat (seq 0 25).

Definition rotation_offsets : list Z :=
  [ 0;  1; 62; 28; 27;
   36; 44;  6; 55; 20;
    3; 10; 43; 25; 39;
   41; 45; 15; 21;  8;
   18;  2; 61; 56; 14].

Definition round_constants : list Z :=
  [0x0000000000000001; 0x0000000000008082; 0x800000000000808A;
   0x8000000080008000; 0x000000000000808B; 0x0000000080000001;
   0x8000000080008081; 0x8000000000008009; 0x000000000000008A;
   0x0000000000000088; 0x0000000080008009; 0x000000008000000A;
   0x000000008000808B; 0x800000000000008B; 0x8000000000008089;
   0x8000000000008003; 0x8000000000008002; 0x8000000000000080;
   0x000000000000800A; 0x800000008000000A; 0x8000000080008081;
   0x8000000000008080; 0x0000000080000001; 0x8000000080008008].

Definition theta (st : list Z) : list Z :=
  let C x :=
    Z.lxor (lane st x 0) (Z.lxor (lane st x 1) (Z.lxor (lane st x 2)
      (Z.lxor (lane st x 3) (lane st x 4)))) in
  let D x := Z.lxor (C (x + 4)) (rotl64 (C (x + 1)) 1) in
  map (fun i => Z.lxor (lane st (i mod 5) (i / 5)) (D (i mod 5))) positions.

(** rho and pi together: the lane written at [(X, Y)] comes from
    [(X + 3 Y, X)], rotated by the offset of its origin. *)
Definition rho_pi (st : list Z) : list Z :=
  map (fun i =>
         let X := i mod 5 in
         let Y := i / 5 in
         let x := (X + 3 * Y) mod 5 in
         rotl64 (lane st x X) (nth (Z.to_nat (x + 5 * X)) rotation_offsets 0))
      positions.

Definition chi (st : list Z) : list Z :=
  map (fun i =>
         let x := i mod 5 in
         let y := i / 5 in
         Z.lxor (lane st x y)
           (Z.land (Z.lxor (lane st (x + 1) y) mask64) (lane st (x + 2) y)))
      positions.

Definition iota (rc : Z) (st : list Z) : list Z :=
  match st with
  | [] => []
  | l0 :: rest => Z.lxor l0 rc :: rest
  end.

Definition round (st : list Z) (rc : Z) : list Z :=
  iota rc (chi (rho_pi (theta st))).

Definition keccak_f (st : list Z) : list Z :=
  fold_left round round_constants st.

Definition rate : nat := 136.

(** pad10*1 with the SHA-3 domain bits: the message, 0x06, zeros, and
    0x80 combined into the last byte of the block. *)
Definition pad (msg : list Z) : list Z :=
  let r := Z.of_nat rate in
  let q := r - Z.of_nat (length msg) mod r in
  if q =? 1 then msg ++ [0x86]
  else msg ++ [0x06] ++ repeat 0 (Z.to_nat (q - 2)) ++ [0x80].

(** Eight bytes, least significant first, as one lane. *)
Definition lane_of_bytes (bs : list Z) : Z :=
  fold_right (fun b acc => b + 256 * acc) 0 bs.

Fixpoint lanes_of_bytes (n : nat) (bs : list Z) : list Z :=
  match n with
  | O => []
  | S n' => lane_of_bytes (firstn 8 bs) :: lanes_of_bytes n' (skipn 8 bs)
  end.

Fixpoint xor_lanes (st blk : list Z) : list Z :=
  match st, blk with
  | s :: st', b :: blk' => Z.lxor s b :: xor_lanes st' blk'
  | _, [] => st
  | [], _ => []
  end.

Fixpoint absorb (blocks : nat) (st : list Z) (bs : list Z) : list Z :=
  match blocks with
  | O => st
  | S n =>
      let blk := lanes_of_bytes 17 (firstn rate bs) in
      absorb n (keccak_f (xor_lanes st blk)) (skipn rate bs)
  end.

Fixpoint bytes_of_lane (n : nat) (l : Z) : list Z :=
  match n with
  | O => []
  | S n' => l mod 256 :: bytes_of_lane n' (l / 256)
  end.

Definition Sum256 (msg : list Z) : list Z :=
  let padded := pad msg in
  let st := absorb (length padded / rate) (repeat 0 25%nat) padded in
  concat (map (bytes_of_lane 8) (firstn 4 st)).
End SHA3.

(** [pc.SHA3FromBytes] *)
Definition SHA3FromBytes (b : list Z) : list Z := SHA3.Sum256 b.

Module json.
Definition quote : ascii := ascii_of_nat 34.

(** A struct field is exported when its name starts with an upper-case
    letter. *)
Definition exported (name : string) : bool :=
  match name with
  | EmptyString => false
  | String c _ => (65 <=? byte_of_ascii c) && (byte_of_ascii c <=? 90)
  end.

Definition quoted (s : string) : string :=
  String quote (s ++ String quote EmptyString).

Definition member (f : string * string) : string :=
  quoted (fst f) ++ ":" ++ quoted (snd f).

Fixpoint join (sep : string) (parts : list string) : string :=
  match parts with
  | [] => EmptyString
  | [p] => p
  | p :: rest => p ++ sep ++ join sep rest
  end.

(** [json.Marshal] of a struct value whose fields are strings, the fields
    given in declaration order as (name, value).  Only exported fields
    become members of the object; the others are skipped without an error.
    Values are written between quotes (the escaping of special characters
    is left out: it plays no part for the field values used here). *)
Definition Marshal (fields : list (string * string)) : Except string (list Z) :=
  Success (bytes_of_string
    ("{" ++ join "," (map member (filter (fun f => exported (fst f)) fields)) ++ "}")).
End json.

(** ** Data model (package [types]) *)

Record Header := {
  ApplicationPubKey : string;
  Chain : string;
  SessionBlockHeight : Z
}.

#[global] Instance Header_eq_dec : EqDecision Header.
Proof. solve_decision. Defined.

#[global] Program Instance Header_countable : Countable Header :=
  inj_countable'
    (fun h => (ApplicationPubKey h, Chain h, SessionBlockHeight h))
    (fun t => Build_Header t.1.1 t.1.2 t.2) _.
Next Obligation. by intros []. Qed.

(** Application authentication token. *)
Record AAT := {
  Version : string;
  ApplicationPublicKey : string;
  ClientPublicKey : string;
  ApplicationSignature : string
}.

(** One relay proof, a leaf of the session's Merkle tree. *)
Record Proof := {
  Index : Z;
  Blockchain : string;
  ServicerPubKey : string;
  Token : AAT;
  Signature : string
}.

(** Sibling hashes from the leaf to the root. *)
Definition MerkleProof := list (list Z).

(** The leaf contents a Merkle tree was built over. *)
Definition Tree := list (list Z).

(** The session record of the evidence store. [Header] is embedded in the
    Go struct, so its fields are read through [por_Header]. *)
Record ProofOfRelay := {
  por_Header : Header;
  por_TotalRelays : Z;
  por_Proofs : list Proof;
  por_Tree : Tree
}.

(** The zero value [pc.ProofOfRelay{}]. *)
Definition ProofOfRelay_zero : ProofOfRelay :=
  {| por_Header := {| ApplicationPubKey := ""; Chain := ""; SessionBlockHeight := 0 |};
     por_TotalRelays := 0; por_Proofs := []; por_Tree := [] |}.

(** The on-chain commitment of a node to a session. *)
Record MsgProof := {
  msg_Header : Header;
  msg_TotalRelays : Z;
  msg_Root : list Z;
  msg_FromAddress : string
}.

(** The zero value [pc.MsgProof{}]. *)
Definition MsgProof_zero : MsgProof :=
  {| msg_Header := {| ApplicationPubKey := ""; Chain := ""; SessionBlockHeight := 0 |};
     msg_TotalRelays := 0; msg_Root := []; msg_FromAddress := "" |}.

(** The on-chain reveal of one leaf. *)
Record MsgClaimProof := {
  claim_MerkleProof : MerkleProof;
  claim_LeafNode : Proof;
  claim_FromAddress : string
}.

(** Error kinds handed back by proof verification: the two built by
    [ValidateProof] itself, and those of the token and signature checks. *)
Inductive Error :=
| InvalidProofsError
| InvalidMerkleVerifyError
| InvalidTokenError
| InvalidSignatureError.

#[global] Instance Error_eq_dec : EqDecision Error.
Proof. solve_decision. Defined.

(** ** Collaborators outside the keeper *)

(** Functions of package [types] and of the Merkle library that the keeper
    calls and whose code is not part of the sources at hand. *)
Class Externals := {
  (** [header.HashString()] *)
  Header_HashString : Header -> string;
  (** [leaf.Hash()] and [leaf.HashString()] *)
  Proof_Hash : Proof -> list Z;
  Proof_HashString : Proof -> string;
  (** [merkle.NewTree(h).VerifyProof(branch, root, leaf)] *)
  VerifyProof : MerkleProof -> list Z -> list Z -> bool;
  (** [token.Validate()] *)
  Token_Validate : AAT -> option Error;
  (** [pc.SignatureVerification(pubKey, msg, sig)] *)
  SignatureVerification : string -> string -> string -> option Error;
  (** [tree.GetMerkleRoot()] and [tree.GetMerkleProof(i)] *)
  GetMerkleRoot : Tree -> Except string (list Z);
  GetMerkleProof : Tree -> Z -> Except string MerkleProof
}.

(** ** Chain state seen through a context *)

(** Modelled from the spec: the context type and the parameter getters of
    the keeper are not among the sources; the specification has a context
    open a read-only view of the chain state at a height, with params(ctx),
    supported_chains(ctx) and block_header(ctx) read through it.  A context
    is a height, the views by height and the key-value store; changing the
    height of a context changes what it reads, not the store. *)
Record Params := {
  param_SessionFrequency : Z;
  param_ProofWaitingPeriod : Z;
  param_UnverifiedProofExpiration : Z;
  param_SupportedBlockchains : list string;
  param_StakeDenom : string
}.

(** What a context pinned at some height reads. *)
Record ChainView := {
  view_Params : Params;
  view_LastBlockIdHash : list Z
}.

(** Keys of both KV namespaces: the node address and the session header. *)
Definition StoreKey : Type := string * Header.

Record KVStore := {
  kv_Proofs : gmap (string * Header) ProofOfRelay;
  kv_UnverifiedProofs : gmap (string * Header) MsgProof
}.

Record Context := {
  ctx_BlockHeight : Z;
  ctx_View : Z -> ChainView;
  ctx_Store : KVStore
}.

Definition BlockHeight (ctx : Context) : Z := ctx_BlockHeight ctx.

Definition WithBlockHeight (ctx : Context) (height : Z) : Context :=
  {| ctx_BlockHeight := height; ctx_View := ctx_View ctx; ctx_Store := ctx_Store ctx |}.


Definition view (ctx : Context) : ChainView := ctx_View ctx (ctx_BlockHeight ctx).

(** [ctx.BlockHeader().GetLastBlockId().Hash] *)
Definition LastBlockIdHash (ctx : Context) : list Z := view_LastBlockIdHash (view ctx).

Definition SessionFrequency (ctx : Context) : Z :=
  param_SessionFrequency (view_Params (view ctx)).
Definition ProofWaitingPeriod (ctx : Context) : Z :=
  param_ProofWaitingPeriod (view_Params (view ctx)).
Definition UnverifiedProofExpiration (ctx : Context) : Z :=
  param_UnverifiedProofExpiration (view_Params (view ctx)).
Definition StakeDenom (ctx : Context) : string :=
  param_StakeDenom (view_Params (view ctx)).

(** Modelled from the spec: [k.IsPocketSupportedBlockchain] is not among
    the sources; a chain is supported when it is in the set
    supported_chains(ctx). *)
Definition IsPocketSupportedBlockchain (ctx : Context) (chain : string) : bool :=
  bool_decide (chain ∈ param_SupportedBlockchains (view_Params (view ctx))).

(** ** The node: evidence held in memory, transactions handed out *)

Record Node := {
  node_Address : string;
  (** account number and sequence, when the account exists *)
  node_Account : option (Z * Z);
  node_ChainID : string
}.

Record TxBuilder := {
  txb_AccountNumber : Z;
  txb_Sequence : Z;
  txb_Gas : Z;
  txb_GasAdjustment : Z;
  txb_ChainID : string;
  (** the coin the fee was built from *)
  txb_FeeDenom : string;
  txb_FeeAmount : Z
}.

(** A transaction handed to the broadcast callbacks. *)
Inductive Tx :=
| TxProof (b : TxBuilder) (header : Header) (totalRelays : Z) (root : list Z)
| TxClaim (b : TxBuilder) (porBranch : MerkleProof) (leafNode : Proof).

(** The process-wide evidence map [pc.GetAllProofs().M], keyed by the hash
    string of the session header, and the transactions sent so far. *)
Record Driver := {
  evidence : gmap string ProofOfRelay;
  sent : list Tx
}.

(** [range] over a list of keys or values with a body that may panic. *)
Fixpoint range {S K : Type} (body : S -> K -> Result S) (ks : list K) (st : S)
  : Result S :=
  match ks with
  | [] => Ok st
  | k :: rest =>
      match body st k with
      | Ok st' => range body rest st'
      | Panic why => Panic why
      end
  end.

(** amino's [MustUnmarshalBinaryBare(bz, target)] decodes into the target,
    which has to be a pointer; given a value it panics, and the caller's
    variable, passed by copy, could not have been written in any case. *)
Inductive Target := ByPointer | ByValue.

(** The content of the caller's variable [var] after the call. *)
Definition MustUnmarshalBinaryBare {A : Type} (stored : A) (var : A) (t : Target)
  : Result A :=
  match t with
  | ByPointer => Ok stored
  | ByValue => Panic "Unmarshal expects a pointer"
  end.

Section Keeper.
Context {E : Externals}.

(** *** Evidence store *)

(** Modelled from the spec: [DeleteProofs], [GetProofs] and [GetProof] of
    the evidence store are not among the sources; the specification has
    delete(header) remove the whole accumulator of a session and
    get_leaf(header, i) give the i-th leaf, with the header's hash as the
    map key. *)
Definition DeleteProofs (header : Header) (st : Driver) : Driver :=
  {| evidence := delete (Header_HashString header) (evidence st); sent := sent st |}.

Definition GetProofs (header : Header) (st : Driver) : list Proof :=
  match evidence st !! Header_HashString header with
  | Some por => por_Proofs por
  | None => []
  end.

Definition GetProof (header : Header) (index : Z) (st : Driver) : option Proof :=
  if index <? 0 then None else GetProofs header st !! Z.to_nat index.

(** [por.GenerateMerkleTree()] *)
Definition GenerateMerkleTree (proofs : list Proof) : Tree := map Proof_Hash proofs.

(** *** Pseudorandom index *)

(** The body of [for i := 0; i < 16; i++], with [fuel] iterations left. *)
Fixpoint pseudoRandomLoop (fuel : nat) (i : nat) (proofsHash : string)
    (totalRelays : Z) : Result Z :=
  match fuel with
  | O => Ok 0
  | S fuel' =>
      tail ← slice_from proofsHash i;
      res ← must "strconv.ParseInt" (strconv.ParseInt16_64 tail);
      if totalRelays >? res then Ok res
      else pseudoRandomLoop fuel' (S i) proofsHash totalRelays
  end.

(** The fields of the struct [pseudorandomGenerator], in declaration
    order, as [json.Marshal] meets them. *)
Definition pseudorandomGenerator (blockHash header : string) : list (string * string) :=
  [("blockHash", blockHash); ("header", header)].

(** What the function computes from the block hash, the header's hash
    string and the relay count. *)
Definition pseudoRandomIndex (blockHash header : string) (totalRelays : Z) : Result Z :=
  r ← must "json.Marshal" (json.Marshal (pseudorandomGenerator blockHash header));
  proofsHash ← slice_to (hex.EncodeToString (SHA3FromBytes r)) 16;
  pseudoRandomLoop 16 0 proofsHash totalRelays.

(** The height whose context the challenge reads. *)
Definition proofHeight (ctx : Context) (header : Header) : Z :=
  GoInt64.add (SessionBlockHeight header)
    (GoInt64.mul (ProofWaitingPeriod ctx) (SessionFrequency ctx)).

Definition GeneratePseudoRandomProof (ctx : Context) (totalRelays : Z)
    (header : Header) : Result Z :=
  let proofContext := WithBlockHeight ctx (proofHeight ctx header) in
  pseudoRandomIndex (hex.EncodeToString (LastBlockIdHash proofContext))
    (Header_HashString header) totalRelays.

(** *** Proof verification *)

(** The checks of [ValidateProof] once the required index is known;
    [None] is Go's [nil] error. *)
Definition ValidateProof_checks (reqProof : Z) (proof : MsgProof)
    (claim : MsgClaimProof) : option Error :=
  let leaf := claim_LeafNode claim in
  if negb (reqProof =? Index leaf) then Some InvalidProofsError
  else if negb (VerifyProof (claim_MerkleProof claim) (msg_Root proof) (Proof_Hash leaf))
  then Some InvalidMerkleVerifyError
  else
    match Token_Validate (Token leaf) with
    | Some err => Some err
    | None =>
        match SignatureVerification (ClientPublicKey (Token leaf))
                (Proof_HashString leaf) (Signature leaf) with
        | Some err => Some err
        | None => None
        end
    end.

Definition ValidateProof (ctx : Context) (proof : MsgProof) (claim : MsgClaimProof)
    : Result (option Error) :=
  reqProof ← GeneratePseudoRandomProof ctx (msg_TotalRelays proof) (msg_Header proof);
  Ok (ValidateProof_checks reqProof proof claim).

(** *** Key-value store *)

(** [k.GetProof]: the verified record of a session, decoded through a
    pointer.  (Named apart from the evidence store's [GetProof].) *)
Definition GetVerifiedProof (ctx : Context) (address : string) (header : Header)
    : Result (option ProofOfRelay) :=
  match kv_Proofs (ctx_Store ctx) !! (address, header) with
  | None => Ok None
  | Some res =>
      proof ← MustUnmarshalBinaryBare res ProofOfRelay_zero ByPointer;
      Ok (Some proof)
  end.

Definition GetUnverfiedProof (ctx : Context) (address : string) (header : Header)
    : Result (option MsgProof) :=
  match kv_UnverifiedProofs (ctx_Store ctx) !! (address, header) with
  | None => Ok None
  | Some res =>
      msg ← MustUnmarshalBinaryBare res MsgProof_zero ByPointer;
      Ok (Some msg)
  end.


(** [ProofIsReadyToClaim] *)
Definition ProofIsReadyToClaim (ctx : Context) (sessionBlockHeight : Z) : bool :=
  let waitingPeriodInBlocks := GoInt64.mul (ProofWaitingPeriod ctx) (SessionFrequency ctx) in
  if BlockHeight ctx >=? GoInt64.add waitingPeriodInBlocks sessionBlockHeight
  then true else false.

(** The entries a prefix iterator over the unverified claims of one
    address walks through. *)
Definition unverifiedProofsOf (ctx : Context) (address : string)
    : list (string * Header * MsgProof) :=
  filter (fun kv => bool_decide (kv.1.1 = address))
    (map_to_list (kv_UnverifiedProofs (ctx_Store ctx))).

(** One step of the iterator loop of [GetMatureUnverifiedProofs]: the
    loop variable [msg] is shared by all iterations and is handed to the
    decoder by value. *)
Definition GetMatureUnverifiedProofs_step (ctx : Context)
    (acc : MsgProof * list MsgProof) (entry : string * Header * MsgProof)
    : Result (MsgProof * list MsgProof) :=
  msg ← MustUnmarshalBinaryBare entry.2 acc.1 ByValue;
  if ProofIsReadyToClaim ctx (SessionBlockHeight (msg_Header msg))
  then Ok (msg, app acc.2 [msg])
  else Ok (msg, acc.2).

Definition GetMatureUnverifiedProofs (ctx : Context) (address : string)
    : Result (list MsgProof) :=
  acc ← range (GetMatureUnverifiedProofs_step ctx)
          (unverifiedProofsOf ctx address) (MsgProof_zero, []);
  Ok acc.2.

(** One step of the iterator loop of [DeleteExpiredUnverifiedProofs]. *)
Definition DeleteExpiredUnverifiedProofs_step (ctx : Context)
    (acc : MsgProof * gmap (string * Header) MsgProof)
    (entry : string * Header * MsgProof)
    : Result (MsgProof * gmap (string * Header) MsgProof) :=
  msg ← MustUnmarshalBinaryBare entry.2 acc.1 ByValue;
  let sessionContext := WithBlockHeight ctx (SessionBlockHeight (msg_Header msg)) in
  age ← GoInt64.div (GoInt64.sub (BlockHeight ctx) (SessionBlockHeight (msg_Header msg)))
          (SessionFrequency sessionContext);
  if age >=? UnverifiedProofExpiration sessionContext
  then Ok (msg, delete entry.1 acc.2)
  else Ok (msg, acc.2).

Definition DeleteExpiredUnverifiedProofs (ctx : Context) : Result KVStore :=
  let store := kv_UnverifiedProofs (ctx_Store ctx) in
  acc ← range (DeleteExpiredUnverifiedProofs_step ctx) (map_to_list store)
          (MsgProof_zero, store);
  Ok {| kv_Proofs := kv_Proofs (ctx_Store ctx); kv_UnverifiedProofs := acc.2 |}.

(** *** Lifecycle driver *)

Definition newTxBuilderAndCliCtx (ctx : Context) (n : Node) : Result TxBuilder :=
  match node_Account n with
  | None => Panic "account does not exist"
  | Some (number, sequence) =>
      Ok {| txb_AccountNumber := number; txb_Sequence := sequence;
            txb_Gas := 9000; txb_GasAdjustment := 1;
            txb_ChainID := node_ChainID n;
            txb_FeeDenom := StakeDenom ctx; txb_FeeAmount := 0 |}
  end.

Definition record (tx : Tx) (st : Driver) : Driver :=
  {| evidence := evidence st; sent := app (sent st) [tx] |}.

(** The body of the loop of [SendUnverifiedProofs] for the map entry
    under [key].  An entry deleted earlier in the same loop is not
    produced by Go's [range]. *)
Definition SendUnverifiedProofs_step (ctx : Context) (n : Node)
    (proofTx : TxBuilder -> Header -> Z -> list Z -> option string)
    (st : Driver) (key : string) : Result Driver :=
  match evidence st !! key with
  | None => Ok st
  | Some proof =>
      let header := por_Header proof in
      if negb (IsPocketSupportedBlockchain
                 (WithBlockHeight ctx (SessionBlockHeight header)) (Chain header))
         && (por_TotalRelays proof >? 0)
      then Ok (DeleteProofs header st)
      else
        found ← GetUnverfiedProof ctx (node_Address n) header;
        match found with
        | Some _ => Ok st
        | None =>
            txBuilder ← newTxBuilderAndCliCtx ctx n;
            root ← must "GetMerkleRoot" (GetMerkleRoot (por_Tree proof));
            match proofTx txBuilder header (por_TotalRelays proof) root with
            | Some _ => Panic "proofTx"
            | None => Ok (record (TxProof txBuilder header (por_TotalRelays proof) root) st)
            end
        end
  end.

(** [SendUnverifiedProofs]; [order] is the order in which this run of
    [range] visits the keys of the evidence map. *)
Definition SendUnverifiedProofs (ctx : Context) (n : Node)
    (proofTx : TxBuilder -> Header -> Z -> list Z -> option string)
    (order : list string) (st : Driver) : Result Driver :=
  range (SendUnverifiedProofs_step ctx n proofTx) order st.

(** The body of the loop of [ClaimProofs] for one mature claim. *)
Definition ClaimProofs_step (ctx : Context) (n : Node)
    (claimTx : TxBuilder -> MerkleProof -> Proof -> option string)
    (st : Driver) (proof : MsgProof) : Result Driver :=
  let addr := node_Address n in
  found ← GetVerifiedProof ctx addr (msg_Header proof);
  match found with
  | Some _ => Ok (DeleteProofs (msg_Header proof) st)
  | None =>
      txBuilder ← newTxBuilderAndCliCtx ctx n;
      let por := {| por_Header := msg_Header proof;
                    por_TotalRelays := msg_TotalRelays proof;
                    por_Proofs := GetProofs (msg_Header proof) st;
                    por_Tree := [] |} in
      reqProof ← GeneratePseudoRandomProof ctx (msg_TotalRelays proof) (msg_Header proof);
      let tree := GenerateMerkleTree (por_Proofs por) in
      branch ← must "GetMerkleProof" (GetMerkleProof tree reqProof);
      match GetProof (msg_Header proof) reqProof st with
      | None => Panic "nil pointer dereference"
      | Some leaf =>
          match claimTx txBuilder branch leaf with
          | Some _ => Panic "claimTx"
          | None => Ok (record (TxClaim txBuilder branch leaf) st)
          end
      end
  end.

Definition ClaimProofs (ctx : Context) (n : Node)
    (claimTx : TxBuilder -> MerkleProof -> Proof -> option string)
    (st : Driver) : Result Driver :=
  proofs ← GetMatureUnverifiedProofs ctx (node_Address n);
  range (ClaimProofs_step ctx n claimTx) proofs st.
End Keeper.

(** ** Network identifiers *)

Definition NetworkIdentifierLength : nat := 2.

Inductive NetworkIdentifierError :=
| NotHex (e : hex.Error)
| NetIdEmpty
| NetIdTooLong.

(** [ValidateNetworkIdentifier]; [None] is Go's [nil] error. *)
Definition ValidateNetworkIdentifier (chain : string) : option NetworkIdentifierError :=
  match hex.DecodeString chain with
  | Failure err => Some (NotHex err)
  | Success h =>
      if (length h =? 0)%nat then Some NetIdEmpty
      else if (NetworkIdentifierLength <? length h)%nat then Some NetIdTooLong
      else None
  end.

(** ** Valid hexadecimal, in words of its own *)

(** The characters a hexadecimal string is made of. *)
Definition hexdigits : list ascii := list_ascii_of_string "0123456789abcdefABCDEF".

Definition is_hexdigit (c : ascii) : bool := existsb (Ascii.eqb c) hexdigits.

Fixpoint all_hexdigits (s : string) : bool :=
  match s with
  | EmptyString => true
  | String c rest => is_hexdigit c && all_hexdigits rest
  end.

(** Valid hexadecimal: hexadecimal digits only, an even number of them. *)
Definition valid_hex (s : string) : Prop :=
  all_hexdigits s = true /\ Nat.even (String.length s) = true.

(** ** The challenge derivation in the words of the specification *)

(** The value of a string of hexadecimal digits, read as an unbounded
    base-16 integer. *)
Fixpoint hex_fold (s : string) (acc : Z) : Z :=
  match s with
  | EmptyString => acc
  | String c rest => hex_fold rest (acc * 16 + default 0 (hex.fromHexChar c))
  end.

Definition hex_value (s : string) : Z := hex_fold s 0.

(** For [i] from [i] on, [fuel] times: the first [r] below [total_relays]
    read from [s[i..]], and 0 when no index qualifies. *)
Fixpoint reference_scan (fuel : nat) (i : nat) (s : string) (total_relays : Z) : Z :=
  match fuel with
  | O => 0
  | S fuel' =>
      let r := hex_value (drop_string i s) in
      if total_relays >? r then r else reference_scan fuel' (S i) s total_relays
  end.

(** Steps 2 to 4 of the algorithm, for the serialized pair [payload]. *)
Definition pseudorandom_challenge (payload : list Z) (total_relays : Z) : Z :=
  reference_scan 16 0
    (take_string 16 (hex.EncodeToString (SHA3.Sum256 payload))) total_relays.

(** ** A concrete chain and node *)

Module Sample.
Definition externals : Externals := {|
  Header_HashString h :=
    ApplicationPubKey h ++ "/" ++ Chain h ++ "/"
      ++ hex.EncodeToString [SessionBlockHeight h mod 256];
  Proof_Hash leaf := SHA3FromBytes (bytes_of_string (Signature leaf));
  Proof_HashString leaf := hex.EncodeToString (SHA3FromBytes (bytes_of_string (Signature leaf)));
  VerifyProof branch root leaf := bool_decide (branch = [] /\ root = leaf);
  Token_Validate token := None;
  SignatureVerification pubKey msg sig := None;
  GetMerkleRoot tree := match tree with [] => Failure "empty tree" | l :: _ => Success l end;
  GetMerkleProof tree i := Success []
|}.

(** session_frequency = 5, proof_waiting_period = 2; chain [0001] is
    supported, chain [00aa] is not. *)
Definition params : Params := {|
  param_SessionFrequency := 5;
  param_ProofWaitingPeriod := 2;
  param_UnverifiedProofExpiration := 3;
  param_SupportedBlockchains := ["0001"];
  param_StakeDenom := "upokt"
|}.

Definition chainView (height : Z) : ChainView :=
  {| view_Params := params; view_LastBlockIdHash := [height mod 256; 171; 205] |}.

Definition emptyStore : KVStore := {| kv_Proofs := ∅; kv_UnverifiedProofs := ∅ |}.

Definition header : Header :=
  {| ApplicationPubKey := "a1"; Chain := "0001"; SessionBlockHeight := 10 |}.

Definition droppedHeader : Header :=
  {| ApplicationPubKey := "a1"; Chain := "00aa"; SessionBlockHeight := 10 |}.

Definition node : Node :=
  {| node_Address := "f00d"; node_Account := Some (7, 0); node_ChainID := "pocket-test" |}.

(** The claim of [node] for the session of [header]: four relays. *)
Definition claim : MsgProof :=
  {| msg_Header := header; msg_TotalRelays := 4; msg_Root := [1; 2; 3];
     msg_FromAddress := "f00d" |}.

Definition claimedStore : KVStore :=
  {| kv_Proofs := ∅; kv_UnverifiedProofs := {[ ("f00d", header) := claim ]} |}.

Definition ctxAt (height : Z) (kv : KVStore) : Context :=
  {| ctx_BlockHeight := height; ctx_View := chainView; ctx_Store := kv |}.

Definition leaf (i : Z) : Proof :=
  {| Index := i; Blockchain := "0001"; ServicerPubKey := "f00d";
     Token := {| Version := "0.0.1"; ApplicationPublicKey := "a1";
                 ClientPublicKey := "c1"; ApplicationSignature := "5160" |};
     Signature := hex.EncodeToString [i] |}.

Definition reveal (i : Z) : MsgClaimProof :=
  {| claim_MerkleProof := []; claim_LeafNode := leaf i; claim_FromAddress := "f00d" |}.

Definition proofTx (b : TxBuilder) (h : Header) (totalRelays : Z) (root : list Z)
  : option string := None.

Definition session (h : Header) (relays : list Z) : ProofOfRelay :=
  {| por_Header := h; por_TotalRelays := Z.of_nat (length relays);
     por_Proofs := map leaf relays;
     por_Tree := map (Proof_Hash (Externals := externals)) (map leaf relays) |}.

Definition holding (h : Header) (relays : list Z) : Driver :=
  {| evidence := {[ Header_HashString (Externals := externals) h := session h relays ]};
     sent := [] |}.


Definition key (h : Header) : string := Header_HashString (Externals := externals) h.

(** The node holding two sessions: four relays on the supported chain and
    two relays on the chain that is not supported. *)
Definition holdingTwo : Driver :=
  {| evidence := {[ key header := session header [0; 1; 2; 3];
                    key droppedHeader := session droppedHeader [0; 1] ]};
     sent := [] |}.

(** What the node sends for the session of [header] with four relays. *)
Definition claimTransaction : Tx :=
  TxProof {| txb_AccountNumber := 7; txb_Sequence := 0; txb_Gas := 9000;
             txb_GasAdjustment := 1; txb_ChainID := "pocket-test";
             txb_FeeDenom := "upokt"; txb_FeeAmount := 0 |}
    header 4 (Proof_Hash (Externals := externals) (leaf 0)).
End Sample.

(** ** The auto-claim pass, entry by entry *)

Section ClaimPass.
Context {E : Externals}.

(** The evidence map holds each session under the hash string of its
    header. *)
Definition keyed_by_header (M : gmap string ProofOfRelay) : Prop :=
  forall key p, M !! key = Some p -> key = Header_HashString (por_Header p).

(** The guard of the loop under which a session is deleted. *)
Definition dropped (ctx : Context) (p : ProofOfRelay) : bool :=
  negb (IsPocketSupportedBlockchain
          (WithBlockHeight ctx (SessionBlockHeight (por_Header p)))
          (Chain (por_Header p)))
  && (por_TotalRelays p >? 0).

(** What the loop does for a session it keeps: nothing when the claim is
    on chain, else one claim transaction. *)
Definition claimFor (ctx : Context) (n : Node)
    (proofTx : TxBuilder -> Header -> Z -> list Z -> option string)
    (p : ProofOfRelay) : Result (option Tx) :=
  found ← GetUnverfiedProof ctx (node_Address n) (por_Header p);
  match found with
  | Some _ => Ok None
  | None =>
      txBuilder ← newTxBuilderAndCliCtx ctx n;
      root ← must "GetMerkleRoot" (GetMerkleRoot (por_Tree p));
      match proofTx txBuilder (por_Header p) (por_TotalRelays p) root with
      | Some _ => Panic "proofTx"
      | None => Ok (Some (TxProof txBuilder (por_Header p) (por_TotalRelays p) root))
      end
  end.

(** The claim transactions a pass over [order] sends for the sessions of
    [M]. *)
Definition claimsSent (ctx : Context) (n : Node)
    (proofTx : TxBuilder -> Header -> Z -> list Z -> option string)
    (M : gmap string ProofOfRelay) (order : list string) : list Tx :=
  order ≫= (fun key =>
    match M !! key with
    | Some p =>
        if dropped ctx p then []
        else match claimFor ctx n proofTx p with
             | Ok (Some tx) => [tx]
             | _ => []
             end
    | None => []
    end).
End ClaimPass.

(** The session a claim transaction is for. *)
Definition tx_header (tx : Tx) : option Header :=
  match tx with
  | TxProof _ header _ _ => Some header
  | TxClaim _ _ _ => None
  end.

(** ** Verified proofs in the key-value store *)








(** ** Pagination of queries *)

(** [checkPagination] *)
Definition checkPagination (page limit : Z) : Z * Z :=
  let page := if page <=? 0 then 1 else page in
  let limit := if limit <=? 0 then 30 else limit in
  (page, limit).

(** ** Encoding a byte and decoding it again *)

(** Whether the two digits written for the byte [b] are read back as [b]. *)
Definition byte_reads_back (b : Z) : bool :=
  match hex.fromHexChar (hex.hexchar (Z.shiftr b 4)),
        hex.fromHexChar (hex.hexchar (Z.land b 15)) with
  | Some hi, Some lo => Z.lor (Z.shiftl hi 4) lo =? b
  | _, _ => false
  end.

(** ** Service URLs *)

Module strings.
(** [strings.Split(s, sep)] for a separator of one character: the pieces
    of [s] between the occurrences of [sep], one piece more than there are
    occurrences. *)
Fixpoint Split (s : string) (sep : ascii) : list string :=
  match s with
  | EmptyString => [EmptyString]
  | String c rest =>
      if Ascii.eqb c sep then EmptyString :: Split rest sep
      else match Split rest sep with
           | [] => [String c EmptyString]
           | piece :: pieces => String c piece :: pieces
           end
  end.

(** [strings.Contains(s, sub)] for a [sub] of one character. *)
Fixpoint Contains (s : string) (c : ascii) : bool :=
  match s with
  | EmptyString => false
  | String d rest => Ascii.eqb d c || Contains rest c
  end.
End strings.

Module decimal.
(** The digit loop of [ParseUint(s, 10, 64)] with accumulator [n]. *)
Fixpoint parseUint10_loop (s : string) (n : Z) : Except strconv.NumError Z :=
  match s with
  | EmptyString => Success n
  | String c rest =>
      match strconv.digit c with
      | None => Failure strconv.ErrSyntax
      | Some d =>
          if 10 <=? d then Failure strconv.ErrSyntax
          else if Z.quot strconv.maxUint64 10 + 1 <=? n then Failure strconv.ErrRange
          else
            let n1 := n * 10 + d in
            if strconv.maxUint64 <? n1 then Failure strconv.ErrRange
            else parseUint10_loop rest n1
      end
  end.

Definition ParseUint10_64 (s : string) : Except strconv.NumError Z :=
  match s with
  | EmptyString => Failure strconv.ErrSyntax
  | _ => parseUint10_loop s 0
  end.

(** [strconv.ParseInt(s, 10, 0)] with a 64 bit [int]. *)
Definition ParseInt10_64 (s : string) : Except strconv.NumError Z :=
  match s with
  | EmptyString => Failure strconv.ErrSyntax
  | String c rest =>
      let '(neg, body) :=
        if Ascii.eqb c "+"%char then (false, rest)
        else if Ascii.eqb c "-"%char then (true, rest)
        else (false, s) in
      match ParseUint10_64 body with
      | Failure e => Failure e
      | Success un =>
          let cutoff := 2 ^ 63 in
          if negb neg && (cutoff <=? un) then Failure strconv.ErrRange
          else if neg && (cutoff <? un) then Failure strconv.ErrRange
          else Success (if neg then - un else un)
      end
  end.

(** The loop of the fast path of [Atoi]: [ch -= '0'] on a byte, then
    [ch > 9] is a syntax error. *)
Fixpoint atoi_loop (s : string) (n : Z) : Except strconv.NumError Z :=
  match s with
  | EmptyString => Success n
  | String ch rest =>
      let d := (byte_of_ascii ch - 48) mod 256 in
      if 9 <? d then Failure strconv.ErrSyntax
      else atoi_loop rest (n * 10 + d)
  end.

(** [strconv.Atoi] with a 64 bit [int]: the fast path for strings of 1 to
    18 characters, [ParseInt(s, 10, 0)] for the others. *)
Definition Atoi (s : string) : Except strconv.NumError Z :=
  let sLen := String.length s in
  if ((0 <? sLen) && (sLen <? 19))%nat then
    match s with
    | EmptyString => Failure strconv.ErrSyntax
    | String c rest =>
        let signed := Ascii.eqb c "-"%char || Ascii.eqb c "+"%char in
        let body := if signed then rest else s in
        if signed && (String.length body <? 1)%nat then Failure strconv.ErrSyntax
        else
          match atoi_loop body 0 with
          | Failure e => Failure e
          | Success n => Success (if Ascii.eqb c "-"%char then - n else n)
          end
    end
  else ParseInt10_64 s.
End decimal.

Definition httpsPrefix : string := "https://".
Definition httpPrefix : string := "http://".
Definition colon : ascii := ":"%char.
Definition period : ascii := "."%char.

Inductive ServiceURLError :=
| URLParseError
| InvalidURLPrefix
| NeedsPort
| PortNotInteger
| PortOutOfRange
| NoPeriod.

Section ServiceURL.
(** [strings.ToLower] and [url.ParseRequestURI] of Go's library, the latter
    as whether it returned no error. *)
Variable ToLower : string -> string.
Variable ParseRequestURI : string -> bool.

(** [ValidateServiceURL]; [Ok None] is Go's [nil] error. *)
Definition ValidateServiceURL (u : string) : Result (option ServiceURLError) :=
  let u := ToLower u in
  if negb (ParseRequestURI u) then Ok (Some URLParseError)
  else
    first8 ← slice_to u 8;
    wrongPrefix ←
      (if negb (String.eqb first8 httpsPrefix)
       then first7 ← slice_to u 7; Ok (negb (String.eqb first7 httpPrefix))
       else Ok false);
    if (wrongPrefix : bool) then Ok (Some InvalidURLPrefix)
    else
      let temp := strings.Split u colon in
      if negb (length temp =? 3)%nat then Ok (Some NeedsPort)
      else
        match decimal.Atoi (nth 2 temp EmptyString) with
        | Failure _ => Ok (Some PortNotInteger)
        | Success port =>
            if (port >? 65535) || (port <? 0) then Ok (Some PortOutOfRange)
            else if negb (strings.Contains u period) then Ok (Some NoPeriod)
            else Ok None
        end.
End ServiceURL.

(** A string without the character [c]. *)
Definition without (c : ascii) (s : string) : Prop := strings.Contains s c = false.

(** The pieces put together again, [sep] between them. *)
Fixpoint joined (sep : ascii) (pieces : list string) : string :=
  match pieces with
  | [] => EmptyString
  | [piece] => piece
  | piece :: rest => piece ++ String sep (joined sep rest)
  end.

(** * Properties *)

(** ** The hash function on known inputs *)

(** The NIST test vectors for the empty message and for "abc". *)
Example SHA3_empty :
  hex.EncodeToString (SHA3FromBytes []) =
  "a7ffc6f8bf1ed76651c14756a061d662f580ff4de43b49fa82d80a4b80f8434a".
Proof. vm_compute. reflexivity. Qed.

Example SHA3_abc :
  hex.EncodeToString (SHA3FromBytes (bytes_of_string "abc")) =
  "3a985da74fe225b2045c172d6bd390bd855f086e3e9d525b46bfe24511431532".
Proof. vm_compute. reflexivity. Qed.


(** ** Hexadecimal decoding and network identifiers *)

Section HexFacts.
Lemma string_pair_ind (P : string -> Prop) :
  P EmptyString ->
  (forall c, P (String c EmptyString)) ->
  (forall p q rest, P rest -> P (String p (String q rest))) ->
  forall s, P s.
Proof.
  intros H0 H1 H2.
  assert (both : forall s, P s /\ forall c, P (String c s)).
  { induction s as [|c s [IHs IHcs]]; split; auto. }
  intros s. apply both.
Qed.

Lemma is_hexdigit_fromHexChar (c : ascii) :
  is_hexdigit c = match hex.fromHexChar c with Some _ => true | None => false end.
Proof. destruct c as [[] [] [] [] [] [] [] []]; vm_compute; reflexivity. Qed.

Lemma fromHexChar_is_hexdigit (c : ascii) :
  is_hexdigit c = true <-> is_Some (hex.fromHexChar c).
Proof.
  rewrite is_hexdigit_fromHexChar.
  destruct (hex.fromHexChar c) as [d|]; split; intros H; done || by destruct H.
Qed.

Lemma fromHexChar_not_hexdigit (c : ascii) :
  is_hexdigit c = false <-> hex.fromHexChar c = None.
Proof.
  destruct (fromHexChar_is_hexdigit c) as [H1 H2].
  destruct (is_hexdigit c) eqn:Hc, (hex.fromHexChar c) eqn:Hf; split; intros; try done.
  - destruct H1 as [? ?]; done.
  - discriminate H2. eauto.
Qed.

(** Decoding succeeds on valid hexadecimal, and only there; the result
    has one byte for every two characters. *)
Lemma Decode_Success (s : string) :
  (exists h, hex.Decode s = Success h) <-> valid_hex s.
Proof.
  unfold valid_hex. induction s as [|c|p q rest IH] using string_pair_ind.
  - simpl. split; eauto.
  - cbn [hex.Decode all_hexdigits String.length Nat.even].
    split.
    + intros [h Hh]. destruct (hex.fromHexChar c); discriminate.
    + intros [_ ?]. discriminate.
  - cbn [hex.Decode all_hexdigits String.length Nat.even].
    destruct (hex.fromHexChar p) as [a|] eqn:Hp.
    + assert (is_hexdigit p = true) as -> by (apply fromHexChar_is_hexdigit; eauto).
      destruct (hex.fromHexChar q) as [b|] eqn:Hq.
      * assert (is_hexdigit q = true) as -> by (apply fromHexChar_is_hexdigit; eauto).
        simpl. rewrite <- IH.
        destruct (hex.Decode rest) as [bs|e]; split.
        -- eauto.
        -- eauto.
        -- intros [h Hh]. discriminate.
        -- intros [h Hh]. discriminate.
      * apply fromHexChar_not_hexdigit in Hq. rewrite Hq. simpl.
        split; [intros [h Hh]; discriminate | intros [? _]; discriminate].
    + apply fromHexChar_not_hexdigit in Hp. rewrite Hp. simpl.
      split; [intros [h Hh]; discriminate | intros [? _]; discriminate].
Qed.

Lemma Decode_length (s : string) (h : list Z) :
  hex.Decode s = Success h -> String.length s = (2 * length h)%nat.
Proof.
  revert h. induction s as [|c|p q rest IH] using string_pair_ind; intros h.
  - simpl. intros [= <-]. reflexivity.
  - simpl. destruct (hex.fromHexChar c); discriminate.
  - cbn [hex.Decode String.length].
    destruct (hex.fromHexChar p); [|discriminate].
    destruct (hex.fromHexChar q); [|discriminate].
    destruct (hex.Decode rest) as [bs|e]; [|discriminate].
    intros [= <-]. rewrite (IH bs eq_refl). simpl. lia.
Qed.
End HexFacts.

(** C8. Validation of a network identifier succeeds exactly on the strings
    that are valid hexadecimal and decode to one or two bytes: the strings
    made of hexadecimal digits whose decoding has length 1 or 2.  Every
    other string is refused: the ones that do not decode, the ones that
    decode to no byte and the ones that decode to more than two bytes. *)
Theorem ValidateNetworkIdentifier_accepts_exactly (chain : string) :
  (ValidateNetworkIdentifier chain = None <->
     exists h, hex.DecodeString chain = Success h /\ (1 <= length h <= 2)%nat)
  /\ (ValidateNetworkIdentifier chain = None <->
        valid_hex chain /\ (1 <= String.length chain / 2 <= 2)%nat)
  /\ (~ valid_hex chain -> exists e, ValidateNetworkIdentifier chain = Some (NotHex e))
  /\ (hex.DecodeString chain = Success [] -> ValidateNetworkIdentifier chain = Some NetIdEmpty)
  /\ (forall h, hex.DecodeString chain = Success h -> (2 < length h)%nat ->
        ValidateNetworkIdentifier chain = Some NetIdTooLong).
Proof.
  assert (first : ValidateNetworkIdentifier chain = None <->
     exists h, hex.DecodeString chain = Success h /\ (1 <= length h <= 2)%nat).
  { unfold ValidateNetworkIdentifier, hex.DecodeString, NetworkIdentifierLength.
    destruct (hex.Decode chain) as [h|e] eqn:Hd.
    - destruct (Nat.eqb_spec (length h) 0) as [H0|H0].
      + split; [discriminate|]. intros [h' [[= <-] ?]]. lia.
      + destruct (Nat.ltb_spec 2 (length h)) as [H2|H2].
        * split; [discriminate|]. intros [h' [[= <-] ?]]. lia.
        * split; [|done]. intros _. exists h. split; [done|lia].
    - split; [discriminate|]. intros [h' [? _]]. discriminate. }
  split; [exact first|]. split; [|split; [|split]].
  - rewrite first. split.
    + intros [h [Hd Hlen]]. split.
      * apply Decode_Success. eauto.
      * apply Decode_length in Hd. rewrite Hd.
        replace (2 * length h)%nat with (length h * 2)%nat by lia.
        rewrite Nat.div_mul by lia. exact Hlen.
    + intros [Hv Hlen]. apply Decode_Success in Hv as [h Hd].
      exists h. split; [exact Hd|].
      apply Decode_length in Hd. rewrite Hd in Hlen.
      replace (2 * length h)%nat with (length h * 2)%nat in Hlen by lia.
      rewrite Nat.div_mul in Hlen by lia. exact Hlen.
  - intros Hnv. unfold ValidateNetworkIdentifier, hex.DecodeString.
    destruct (hex.Decode chain) as [h|e] eqn:Hd; [|eauto].
    exfalso. apply Hnv, Decode_Success. eauto.
  - unfold ValidateNetworkIdentifier. intros ->. reflexivity.
  - unfold ValidateNetworkIdentifier, NetworkIdentifierLength. intros h -> Hlen.
    destruct (Nat.eqb_spec (length h) 0); [lia|].
    destruct (Nat.ltb_spec 2 (length h)); [done|lia].
Qed.

Example ValidateNetworkIdentifier_examples :
  ValidateNetworkIdentifier "0a" = None /\
  ValidateNetworkIdentifier "00A1" = None /\
  ValidateNetworkIdentifier "" = Some NetIdEmpty /\
  ValidateNetworkIdentifier "0a0b0c" = Some NetIdTooLong /\
  ValidateNetworkIdentifier "0" = Some (NotHex hex.ErrLength) /\
  ValidateNetworkIdentifier "zz" = Some (NotHex (hex.InvalidByteError 122)).
Proof. repeat split. Qed.

(** ** The pseudorandom index *)

Section PseudoRandom.
Context {E : Externals}.

(** Neither field of [pseudorandomGenerator] is exported, so the bytes
    that are hashed are those of the empty object. *)
Lemma Marshal_pseudorandomGenerator (blockHash header : string) :
  json.Marshal (pseudorandomGenerator blockHash header) = Success (bytes_of_string "{}").
Proof. reflexivity. Qed.

Lemma proofsHash_value (blockHash header : string) :
  (r ← must "json.Marshal" (json.Marshal (pseudorandomGenerator blockHash header));
   slice_to (hex.EncodeToString (SHA3FromBytes r)) 16) = Ok "840eb7aa2a9935de".
Proof. rewrite Marshal_pseudorandomGenerator. vm_compute. reflexivity. Qed.

(** The sixteen digits read at [i = 0] exceed the largest [int64]. *)
Lemma ParseInt_proofsHash :
  strconv.ParseInt16_64 "840eb7aa2a9935de" = Failure strconv.ErrRange.
Proof. vm_compute. reflexivity. Qed.

(** *** Signed parsing of hexadecimal digits *)

Lemma digit_fromHexChar (c : ascii) (d : Z) :
  hex.fromHexChar c = Some d -> strconv.digit c = Some d /\ 0 <= d < 16.
Proof.
  destruct c as [[] [] [] [] [] [] [] []]; vm_compute; intros [= <-];
    repeat split; discriminate.
Qed.

Lemma hex_fold_lower (s : string) (acc : Z) :
  all_hexdigits s = true -> 0 <= acc -> acc <= hex_fold s acc.
Proof.
  revert acc. induction s as [|c rest IH]; intros acc Hs Hacc; simpl; [lia|].
  simpl in Hs. apply andb_true_iff in Hs as [Hc Hrest].
  apply fromHexChar_is_hexdigit in Hc as [d Hd]. rewrite Hd. simpl.
  apply digit_fromHexChar in Hd as [_ Hd].
  specialize (IH (acc * 16 + d) Hrest). lia.
Qed.

Lemma hex_fold_upper (s : string) (acc : Z) :
  all_hexdigits s = true -> 0 <= acc ->
  hex_fold s acc < (acc + 1) * 16 ^ Z.of_nat (String.length s).
Proof.
  revert acc. induction s as [|c rest IH]; intros acc Hs Hacc.
  - simpl. lia.
  - simpl in Hs. apply andb_true_iff in Hs as [Hc Hrest].
    apply fromHexChar_is_hexdigit in Hc as [d Hd].
    cbn [hex_fold String.length]. rewrite Hd. simpl default.
    apply digit_fromHexChar in Hd as [_ Hd].
    specialize (IH (acc * 16 + d) Hrest).
    rewrite Nat2Z.inj_succ, Z.pow_succ_r by lia.
    assert (0 < 16 ^ Z.of_nat (String.length rest)) by (apply Z.pow_pos_nonneg; lia).
    nia.
Qed.

(** The unsigned digit loop on hexadecimal digits: the value, unless it
    leaves 64 bits. *)
Lemma parseUint16_loop_hexdigits (s : string) (acc : Z) :
  all_hexdigits s = true -> 0 <= acc <= strconv.maxUint64 ->
  strconv.parseUint16_loop s acc =
    if hex_fold s acc <=? strconv.maxUint64 then Success (hex_fold s acc)
    else Failure strconv.ErrRange.
Proof.
  revert acc. induction s as [|c rest IH]; intros acc Hs Hacc.
  - simpl. destruct (Z.leb_spec acc strconv.maxUint64); [done|lia].
  - simpl in Hs. apply andb_true_iff in Hs as [Hc Hrest].
    apply fromHexChar_is_hexdigit in Hc as [d Hd].
    cbn [strconv.parseUint16_loop hex_fold]. rewrite Hd. simpl default.
    apply digit_fromHexChar in Hd as [-> Hd].
    destruct (Z.leb_spec 16 d); [lia|].
    change (strconv.maxUint64 `quot` 16 + 1) with (2 ^ 60).
    pose proof (hex_fold_lower rest (acc * 16 + d) Hrest ltac:(lia)) as Hlow.
    unfold strconv.maxUint64 in *.
    destruct (Z.leb_spec (2 ^ 60) acc).
    + destruct (Z.leb_spec (hex_fold rest (acc * 16 + d)) (2 ^ 64 - 1)); [lia|done].
    + destruct (Z.ltb_spec (2 ^ 64 - 1) (acc * 16 + d)); [lia|].
      apply IH; [done|lia].
Qed.

(** [strconv.ParseInt] on a string of hexadecimal digits: the value when
    it is below [2 ^ 63], a range error otherwise. *)
Lemma ParseInt16_64_hexdigits (s : string) :
  all_hexdigits s = true -> s <> EmptyString ->
  strconv.ParseInt16_64 s =
    if hex_value s <? 2 ^ 63 then Success (hex_value s) else Failure strconv.ErrRange.
Proof.
  intros Hs Hne. destruct s as [|c rest]; [done|].
  unfold strconv.ParseInt16_64.
  assert (Ascii.eqb c "+" = false /\ Ascii.eqb c "-" = false) as [-> ->].
  { simpl in Hs. apply andb_true_iff in Hs as [Hc _].
    destruct (Ascii.eqb_spec c "+") as [->|]; [discriminate Hc|].
    destruct (Ascii.eqb_spec c "-") as [->|]; [discriminate Hc|]. done. }
  unfold strconv.ParseUint16_64.
  rewrite parseUint16_loop_hexdigits by (done || unfold strconv.maxUint64; lia).
  fold (hex_value (String c rest)). unfold strconv.maxUint64.
  pose proof (hex_fold_lower _ 0 Hs ltac:(lia)) as Hlow. fold (hex_value (String c rest)) in Hlow.
  destruct (Z.leb_spec (hex_value (String c rest)) (2 ^ 64 - 1)).
  - simpl negb. cbn [andb].
    destruct (Z.leb_spec (2 ^ 63) (hex_value (String c rest)));
      destruct (Z.ltb_spec (hex_value (String c rest)) (2 ^ 63)); done || lia.
  - destruct (Z.ltb_spec (hex_value (String c rest)) (2 ^ 63)); [lia|done].
Qed.

(** *** The loop against the scan of the specification *)

Lemma all_hexdigits_drop (i : nat) (s : string) :
  all_hexdigits s = true -> all_hexdigits (drop_string i s) = true.
Proof.
  revert s. induction i as [|i IH]; intros [|c rest] Hs; simpl; try done.
  simpl in Hs. apply andb_true_iff in Hs as [_ Hrest]. auto.
Qed.

Lemma length_drop_string (i : nat) (s : string) :
  String.length (drop_string i s) = (String.length s - i)%nat.
Proof. revert s. induction i as [|i IH]; intros [|c rest]; simpl; auto. Qed.

Lemma slice_from_within (s : string) (i : nat) :
  (i <= String.length s)%nat -> slice_from s i = Ok (drop_string i s).
Proof.
  intros Hi. unfold slice_from.
  destruct (Nat.leb_spec i (String.length s)); [done|lia].
Qed.

Lemma slice_from_Ok (s : string) (i : nat) (t : string) :
  slice_from s i = Ok t -> t = drop_string i s.
Proof.
  unfold slice_from. destruct (i <=? String.length s)%nat; [|discriminate].
  by intros [= <-].
Qed.

Lemma pseudoRandomLoop_step (fuel i : nat) (s : string) (totalRelays : Z) :
  pseudoRandomLoop (S fuel) i s totalRelays =
    (tail ← slice_from s i;
     res ← must "strconv.ParseInt" (strconv.ParseInt16_64 tail);
     if totalRelays >? res then Ok res
     else pseudoRandomLoop fuel (S i) s totalRelays).
Proof. reflexivity. Qed.

Lemma reference_scan_step (fuel i : nat) (s : string) (total_relays : Z) :
  reference_scan (S fuel) i s total_relays =
    let r := hex_value (drop_string i s) in
    if total_relays >? r then r else reference_scan fuel (S i) s total_relays.
Proof. reflexivity. Qed.

(** From the second index on, at most fifteen digits are read: the parse
    cannot fail, and the loop is the scan of the specification. *)
Lemma pseudoRandomLoop_short_tails (fuel i : nat) (s : string) (totalRelays : Z) :
  all_hexdigits s = true ->
  (i + fuel <= String.length s)%nat ->
  (String.length s - i <= 15)%nat ->
  pseudoRandomLoop fuel i s totalRelays = Ok (reference_scan fuel i s totalRelays).
Proof.
  intros Hs. revert i. induction fuel as [|fuel IH]; intros i Hlen Hshort; [done|].
  cbn [pseudoRandomLoop reference_scan].
  rewrite slice_from_within by lia. cbn [mbind Result_bind].
  pose proof (all_hexdigits_drop i s Hs) as Htail.
  pose proof (length_drop_string i s) as Hl.
  rewrite ParseInt16_64_hexdigits; [|done|].
  2:{ intros Hempty. rewrite Hempty in Hl. simpl in Hl. lia. }
  pose proof (hex_fold_upper _ 0 Htail ltac:(lia)) as Hup.
  fold (hex_value (drop_string i s)) in Hup. rewrite Hl in Hup.
  assert (16 ^ Z.of_nat (String.length s - i) <= 16 ^ 15)
    by (apply Z.pow_le_mono_r; lia).
  destruct (Z.ltb_spec (hex_value (drop_string i s)) (2 ^ 63)); [|lia].
  cbn [must mbind Result_bind].
  destruct (totalRelays >? hex_value (drop_string i s)); [done|].
  apply IH; lia.
Qed.

(** X15. On sixteen hexadecimal digits the loop is the scan of the
    specification when the digits read at [i = 0] fit a signed 64 bit
    integer, and a panic when they do not. *)
Lemma pseudoRandomLoop_sixteen_digits (s : string) (totalRelays : Z) :
  all_hexdigits s = true -> String.length s = 16%nat ->
  pseudoRandomLoop 16 0 s totalRelays =
    if hex_value s <? 2 ^ 63 then Ok (reference_scan 16 0 s totalRelays)
    else Panic "strconv.ParseInt".
Proof.
  intros Hs Hlen.
  rewrite (pseudoRandomLoop_step 15 0), (reference_scan_step 15 0).
  rewrite slice_from_within by lia. cbn [mbind Result_bind drop_string].
  rewrite ParseInt16_64_hexdigits; [|done|intros ->; discriminate Hlen].
  destruct (Z.ltb_spec (hex_value s) (2 ^ 63)); [|done].
  cbn [must mbind Result_bind].
  destruct (totalRelays >? hex_value s); [done|].
  apply pseudoRandomLoop_short_tails; [done|lia|lia].
Qed.

(** X16. Whenever the loop returns, on hexadecimal digits, the index lies below
    a positive relay count, and is 0 for a relay count that is not
    positive. *)
Lemma pseudoRandomLoop_in_range (fuel i : nat) (s : string) (totalRelays r : Z) :
  all_hexdigits s = true ->
  pseudoRandomLoop fuel i s totalRelays = Ok r ->
  (0 < totalRelays -> 0 <= r < totalRelays) /\ (totalRelays <= 0 -> r = 0).
Proof.
  intros Hs. revert i. induction fuel as [|fuel IH]; intros i.
  - simpl. intros [= <-]. lia.
  - cbn [pseudoRandomLoop].
    destruct (slice_from s i) as [tail|] eqn:Hslice; [|discriminate].
    apply slice_from_Ok in Hslice as ->. cbn [mbind Result_bind].
    destruct (drop_string i s) as [|c rest] eqn:Htail; [discriminate|].
    rewrite ParseInt16_64_hexdigits; [| |done].
    2:{ rewrite <- Htail. by apply all_hexdigits_drop. }
    assert (0 <= hex_value (String c rest)) as Hnonneg.
    { apply (hex_fold_lower _ 0); [|lia]. rewrite <- Htail. by apply all_hexdigits_drop. }
    destruct (hex_value (String c rest) <? 2 ^ 63); [|discriminate].
    cbn [must mbind Result_bind].
    destruct (Z.gtb_spec totalRelays (hex_value (String c rest))).
    + intros [= <-]. lia.
    + apply IH.
Qed.

Lemma pseudoRandomIndex_outcome (blockHash header : string) (totalRelays : Z) :
  pseudoRandomIndex blockHash header totalRelays = Panic "strconv.ParseInt".
Proof.
  unfold pseudoRandomIndex. rewrite Marshal_pseudorandomGenerator.
  vm_compute. reflexivity.
Qed.

Lemma GeneratePseudoRandomProof_outcome (ctx : Context) (totalRelays : Z) (header : Header) :
  GeneratePseudoRandomProof ctx totalRelays header = Panic "strconv.ParseInt".
Proof. apply pseudoRandomIndex_outcome. Qed.

(** C1. The derivation of the code is not the algorithm of the
    specification.  Whatever serialization of the pair is taken as the
    canonical one, the code never returns the index the algorithm selects;
    and its outcome is the same for every block hash and every header,
    because the bytes it hashes contain neither. *)
Theorem GeneratePseudoRandomProof_misses_reference
    (canonical : string -> string -> list Z)
    (ctx : Context) (totalRelays : Z) (header : Header) :
  let proofContext := WithBlockHeight ctx (proofHeight ctx header) in
  GeneratePseudoRandomProof ctx totalRelays header <>
    Ok (pseudorandom_challenge
          (canonical (hex.EncodeToString (LastBlockIdHash proofContext))
                     (Header_HashString header)) totalRelays)
  /\ (forall blockHash headerHash,
        pseudoRandomIndex blockHash headerHash totalRelays =
        GeneratePseudoRandomProof ctx totalRelays header).
Proof.
  intros proofContext. rewrite GeneratePseudoRandomProof_outcome. split.
  - discriminate.
  - intros. apply pseudoRandomIndex_outcome.
Qed.


(** C9. No index is returned: for no input does the function return a
    value, be it 0 for a relay count that is not positive or an index
    below a positive relay count. *)
Theorem GeneratePseudoRandomProof_returns_no_index
    (ctx : Context) (totalRelays : Z) (header : Header) (r : Z) :
  GeneratePseudoRandomProof ctx totalRelays header <> Ok r.
Proof. rewrite GeneratePseudoRandomProof_outcome. discriminate. Qed.

(** C10. The serialization succeeds, with the bytes of the empty object;
    the first sixteen digits of their digest do not fit a signed 64 bit
    integer, so the parse at [i = 0] fails and the function panics, on
    every input. *)
Theorem GeneratePseudoRandomProof_parse_panics
    (ctx : Context) (totalRelays : Z) (header : Header) :
  let blockHash := hex.EncodeToString (LastBlockIdHash (WithBlockHeight ctx (proofHeight ctx header))) in
  exists r proofsHash,
    json.Marshal (pseudorandomGenerator blockHash (Header_HashString header)) = Success r
    /\ slice_to (hex.EncodeToString (SHA3FromBytes r)) 16 = Ok proofsHash
    /\ slice_from proofsHash 0 = Ok proofsHash
    /\ strconv.ParseInt16_64 proofsHash = Failure strconv.ErrRange
    /\ GeneratePseudoRandomProof ctx totalRelays header = Panic "strconv.ParseInt".
Proof.
  intros blockHash. exists (bytes_of_string "{}"), "840eb7aa2a9935de".
  split; [reflexivity|]. split; [vm_compute; reflexivity|].
  split; [reflexivity|]. split; [apply ParseInt_proofsHash|].
  apply GeneratePseudoRandomProof_outcome.
Qed.

(** *** Proof verification *)

(** Past the computation of the required index, a message is accepted
    only with the required leaf index and a verifying Merkle branch, and
    the first two failures are told apart. *)
Lemma ValidateProof_checks_accept (reqProof : Z) (proof : MsgProof) (claim : MsgClaimProof) :
  ValidateProof_checks reqProof proof claim = None ->
  Index (claim_LeafNode claim) = reqProof
  /\ VerifyProof (claim_MerkleProof claim) (msg_Root proof)
       (Proof_Hash (claim_LeafNode claim)) = true
  /\ Token_Validate (Token (claim_LeafNode claim)) = None
  /\ SignatureVerification (ClientPublicKey (Token (claim_LeafNode claim)))
       (Proof_HashString (claim_LeafNode claim)) (Signature (claim_LeafNode claim)) = None.
Proof.
  unfold ValidateProof_checks.
  destruct (Z.eqb_spec reqProof (Index (claim_LeafNode claim))); [|discriminate].
  cbn [negb]. destruct (VerifyProof _ _ _); [|discriminate]. cbn [negb].
  destruct (Token_Validate _); [discriminate|].
  destruct (SignatureVerification _ _ _); [discriminate|]. done.
Qed.

(** C2. Proof verification accepts no message and reports no error kind:
    it computes the required index first, and that computation panics on
    every input. *)
Theorem ValidateProof_never_returns
    (ctx : Context) (proof : MsgProof) (claim : MsgClaimProof) :
  ValidateProof ctx proof claim = Panic "strconv.ParseInt".
Proof.
  unfold ValidateProof. rewrite GeneratePseudoRandomProof_outcome. reflexivity.
Qed.
End PseudoRandom.


(** ** Maturity and expiry *)

Section Maturity.
Context {E : Externals}.

Lemma wrap_in_range (z : Z) : GoInt64.in_range z -> GoInt64.wrap z = z.
Proof.
  unfold GoInt64.in_range, GoInt64.wrap, GoInt64.min, GoInt64.max. intros Hz.
  rewrite Z.mod_small; lia.
Qed.

(** Without overflow of the two [int64] operations, a claim is ready
    exactly from the height session_block_height +
    proof_waiting_period * session_frequency on. *)
Lemma ProofIsReadyToClaim_iff (ctx : Context) (sessionBlockHeight : Z) :
  GoInt64.in_range (ProofWaitingPeriod ctx * SessionFrequency ctx) ->
  GoInt64.in_range (ProofWaitingPeriod ctx * SessionFrequency ctx + sessionBlockHeight) ->
  ProofIsReadyToClaim ctx sessionBlockHeight = true <->
  BlockHeight ctx >= sessionBlockHeight + ProofWaitingPeriod ctx * SessionFrequency ctx.
Proof.
  intros Hmul Hadd. unfold ProofIsReadyToClaim, GoInt64.add, GoInt64.mul.
  rewrite (wrap_in_range _ Hmul), (wrap_in_range _ Hadd).
  destruct (Z.geb_spec (BlockHeight ctx)
              (ProofWaitingPeriod ctx * SessionFrequency ctx + sessionBlockHeight));
    split; intros; try done; lia.
Qed.

(** Ready at the height of maturity, not ready one block earlier. *)
Lemma ProofIsReadyToClaim_boundary (ctx : Context) (sessionBlockHeight : Z) :
  GoInt64.in_range (ProofWaitingPeriod ctx * SessionFrequency ctx) ->
  GoInt64.in_range (ProofWaitingPeriod ctx * SessionFrequency ctx + sessionBlockHeight) ->
  let maturity := sessionBlockHeight + ProofWaitingPeriod ctx * SessionFrequency ctx in
  (BlockHeight ctx = maturity -> ProofIsReadyToClaim ctx sessionBlockHeight = true)
  /\ (BlockHeight ctx = maturity - 1 -> ProofIsReadyToClaim ctx sessionBlockHeight = false).
Proof.
  intros Hmul Hadd maturity. subst maturity.
  pose proof (ProofIsReadyToClaim_iff ctx sessionBlockHeight Hmul Hadd) as Hiff.
  split; intros Hh.
  - apply Hiff. lia.
  - destruct (ProofIsReadyToClaim ctx sessionBlockHeight); [|done].
    destruct Hiff as [Hready _]. specialize (Hready eq_refl). lia.
Qed.

(** The collection of mature claims returns only when the node has no
    unverified claim at all: the decoding of the first entry panics. *)
Lemma GetMatureUnverifiedProofs_outcome (ctx : Context) (address : string) :
  GetMatureUnverifiedProofs ctx address =
    match unverifiedProofsOf ctx address with
    | [] => Ok []
    | _ :: _ => Panic "Unmarshal expects a pointer"
    end.
Proof.
  unfold GetMatureUnverifiedProofs.
  destruct (unverifiedProofsOf ctx address) as [|entry rest]; reflexivity.
Qed.

(** The expiry sweep returns only over an empty set of unverified claims,
    which it leaves as it is. *)
Lemma DeleteExpiredUnverifiedProofs_outcome (ctx : Context) :
  DeleteExpiredUnverifiedProofs ctx =
    match map_to_list (kv_UnverifiedProofs (ctx_Store ctx)) with
    | [] => Ok {| kv_Proofs := kv_Proofs (ctx_Store ctx);
                  kv_UnverifiedProofs := kv_UnverifiedProofs (ctx_Store ctx) |}
    | _ :: _ => Panic "Unmarshal expects a pointer"
    end.
Proof.
  unfold DeleteExpiredUnverifiedProofs.
  destruct (map_to_list (kv_UnverifiedProofs (ctx_Store ctx))) as [|entry rest];
    reflexivity.
Qed.
End Maturity.

(** C4. At height 20, with session frequency 5 and waiting period 2, the
    claim of the node for the session begun at height 10 is mature and is
    found in the store by its key; the collection of mature claims does
    not select it, it panics on decoding it. *)
Theorem GetMatureUnverifiedProofs_misses_mature_claim :
  let ctx := Sample.ctxAt 20 Sample.claimedStore in
  ProofIsReadyToClaim ctx (SessionBlockHeight Sample.header) = true
  /\ ProofIsReadyToClaim (Sample.ctxAt 19 Sample.claimedStore)
       (SessionBlockHeight Sample.header) = false
  /\ GetUnverfiedProof ctx "f00d" Sample.header = Ok (Some Sample.claim)
  /\ GetMatureUnverifiedProofs ctx "f00d" = Panic "Unmarshal expects a pointer".
Proof.
  intros ctx. split; [reflexivity|]. split; [reflexivity|]. split.
  - unfold GetUnverfiedProof. subst ctx. simpl.
    rewrite lookup_singleton_eq. reflexivity.
  - rewrite GetMatureUnverifiedProofs_outcome.
    unfold unverifiedProofsOf. subst ctx. simpl.
    rewrite map_to_list_singleton. reflexivity.
Qed.

(** C5. At height 26, with session frequency 5 and an expiration of 3
    sessions, the claim for the session begun at height 10 has age 3 and
    is due for deletion; the sweep deletes nothing, it panics on decoding
    the claim. *)
Theorem DeleteExpiredUnverifiedProofs_keeps_expired_claim :
  let ctx := Sample.ctxAt 26 Sample.claimedStore in
  let sessionContext := WithBlockHeight ctx (SessionBlockHeight Sample.header) in
  GoInt64.div (GoInt64.sub (BlockHeight ctx) (SessionBlockHeight Sample.header))
    (SessionFrequency sessionContext) = Ok 3
  /\ UnverifiedProofExpiration sessionContext = 3
  /\ DeleteExpiredUnverifiedProofs ctx = Panic "Unmarshal expects a pointer".
Proof.
  intros ctx sessionContext. split; [reflexivity|]. split; [reflexivity|].
  rewrite DeleteExpiredUnverifiedProofs_outcome. subst ctx. simpl.
  rewrite map_to_list_singleton. reflexivity.
Qed.

(** ** The auto-claim pass *)

Section ClaimPassFacts.
Context {E : Externals}.
Variables (ctx : Context) (n : Node).
Variable proofTx : TxBuilder -> Header -> Z -> list Z -> option string.

Local Open Scope list_scope.

Local Abbreviation step := (SendUnverifiedProofs_step ctx n proofTx).
Local Abbreviation pass := (SendUnverifiedProofs ctx n proofTx).
Local Abbreviation claims := (claimsSent ctx n proofTx).

(** The loop body, by the case of the entry it meets. *)
Lemma SendUnverifiedProofs_step_cases (st : Driver) (key : string) :
  step st key =
    match evidence st !! key with
    | None => Ok st
    | Some p =>
        if dropped ctx p then Ok (DeleteProofs (por_Header p) st)
        else
          match claimFor ctx n proofTx p with
          | Ok (Some tx) => Ok (record tx st)
          | Ok None => Ok st
          | Panic why => Panic why
          end
    end.
Proof.
  unfold SendUnverifiedProofs_step, dropped, claimFor.
  destruct (evidence st !! key) as [p|]; [|done].
  destruct (negb _ && _); [done|].
  destruct (GetUnverfiedProof ctx (node_Address n) (por_Header p)) as [[msg|]|why];
    cbn [mbind Result_bind]; try done.
  destruct (newTxBuilderAndCliCtx ctx n) as [txBuilder|why]; cbn [mbind Result_bind]; [|done].
  destruct (must "GetMerkleRoot" (GetMerkleRoot (por_Tree p))) as [root|why];
    cbn [mbind Result_bind]; [|done].
  destruct (proofTx txBuilder (por_Header p) (por_TotalRelays p) root); done.
Qed.

Lemma claimFor_header (p : ProofOfRelay) (tx : Tx) :
  claimFor ctx n proofTx p = Ok (Some tx) -> tx_header tx = Some (por_Header p).
Proof.
  unfold claimFor.
  destruct (GetUnverfiedProof ctx (node_Address n) (por_Header p)) as [[msg|]|why];
    cbn [mbind Result_bind]; try discriminate.
  destruct (newTxBuilderAndCliCtx ctx n) as [txBuilder|why]; cbn [mbind Result_bind];
    [|discriminate].
  destruct (must "GetMerkleRoot" (GetMerkleRoot (por_Tree p))) as [root|why];
    cbn [mbind Result_bind]; [|discriminate].
  destruct (proofTx txBuilder (por_Header p) (por_TotalRelays p) root); [discriminate|].
  intros [= <-]. reflexivity.
Qed.

(** One step changes the entry under the visited key at most, given the
    keying of the map, and appends what [claimsSent] lists for that key. *)
Lemma step_effect (st st' : Driver) (key : string) :
  keyed_by_header (evidence st) ->
  step st key = Ok st' ->
  sent st' = sent st ++ claims (evidence st) [key]
  /\ ((evidence st' = evidence st
       /\ forall p, evidence st !! key = Some p ->
            dropped ctx p = false /\ exists o, claimFor ctx n proofTx p = Ok o)
      \/ (exists p, evidence st !! key = Some p /\ dropped ctx p = true
                    /\ evidence st' = delete key (evidence st))).
Proof.
  intros Hkeyed. rewrite SendUnverifiedProofs_step_cases.
  unfold claimsSent. cbn [mbind list_bind]. rewrite app_nil_r.
  destruct (evidence st !! key) as [p|] eqn:Hp.
  - destruct (dropped ctx p) eqn:Hdrop.
    + intros [= <-]. cbn [sent evidence DeleteProofs]. rewrite app_nil_r.
      split; [done|]. right. exists p. rewrite <- (Hkeyed key p Hp). done.
    + destruct (claimFor ctx n proofTx p) as [[tx|]|why] eqn:Hclaim; [| |discriminate].
      * intros [= <-]. cbn [sent evidence record]. split; [done|]. left.
        split; [done|]. intros ? [= <-]. eauto.
      * intros [= <-]. rewrite app_nil_r. split; [done|]. left.
        split; [done|]. intros ? [= <-]. eauto.
  - intros [= <-]. rewrite app_nil_r. split; [done|]. left. split; [done|]. done.
Qed.

(** Deleting a dropped session changes nothing in what a pass sends. *)
Lemma claims_delete_dropped (M : gmap string ProofOfRelay) (key : string)
    (p : ProofOfRelay) (order : list string) :
  M !! key = Some p -> dropped ctx p = true ->
  claims (delete key M) order = claims M order.
Proof.
  intros Hp Hdrop. unfold claimsSent.
  induction order as [|k rest IH]; [done|].
  cbn [mbind list_bind]. fold (mbind (M := list) (A := string) (B := Tx)).
  f_equal; [|exact IH].
  destruct (decide (k = key)) as [->|Hne].
  - rewrite lookup_delete_eq, Hp, Hdrop. done.
  - rewrite lookup_delete_ne by done. done.
Qed.

Lemma claims_cons (M : gmap string ProofOfRelay) (key : string) (order : list string) :
  claims M (key :: order) = claims M [key] ++ claims M order.
Proof. unfold claimsSent. cbn [mbind list_bind]. by rewrite app_nil_r. Qed.

(** A completed pass: the transactions sent are those [claimsSent] lists
    for the map as it was at the start. *)
Lemma pass_sent (order : list string) (st st' : Driver) :
  keyed_by_header (evidence st) ->
  pass order st = Ok st' ->
  sent st' = sent st ++ claims (evidence st) order.
Proof.
  unfold SendUnverifiedProofs. revert st.
  induction order as [|key rest IH]; intros st Hkeyed.
  - simpl. intros [= <-]. by rewrite app_nil_r.
  - cbn [range]. destruct (step st key) as [sa|why] eqn:Hstep; [|discriminate].
    intros Hrest.
    destruct (step_effect st sa key Hkeyed Hstep) as [Hsent Hev].
    rewrite claims_cons, app_assoc, <- Hsent.
    destruct Hev as [[Hsame _]|[p [Hp [Hdrop Hdel]]]].
    + rewrite <- Hsame. apply IH; [by rewrite Hsame|done].
    + rewrite <- (claims_delete_dropped (evidence st) key p rest Hp Hdrop), <- Hdel.
      apply IH; [|done]. rewrite Hdel. intros k q Hq.
      apply lookup_delete_Some in Hq as [_ Hq]. eauto.
Qed.

Lemma bool_decide_elem_of_cons_ne (k key : string) (rest : list string) :
  k <> key -> bool_decide (k ∈ key :: rest) = bool_decide (k ∈ rest).
Proof.
  intros Hne. apply bool_decide_ext. rewrite elem_of_cons.
  split; [intros [?|?]; done|by right].
Qed.

(** A completed pass: the map loses the dropped sessions among the
    visited keys, and nothing else. *)
Lemma pass_evidence (order : list string) (st st' : Driver) (k : string) :
  keyed_by_header (evidence st) ->
  pass order st = Ok st' ->
  evidence st' !! k =
    match evidence st !! k with
    | Some p => if bool_decide (k ∈ order) && dropped ctx p then None else Some p
    | None => None
    end.
Proof.
  unfold SendUnverifiedProofs. revert st.
  induction order as [|key rest IH]; intros st Hkeyed.
  - simpl. intros [= <-]. destruct (evidence st !! k); done.
  - cbn [range]. destruct (step st key) as [sa|why] eqn:Hstep; [|discriminate].
    intros Hrest.
    destruct (step_effect st sa key Hkeyed Hstep) as [_ Hev].
    destruct Hev as [[Hsame Hkept]|[p [Hp [Hdrop Hdel]]]].
    + rewrite (IH sa) by (by rewrite ?Hsame). rewrite Hsame.
      destruct (evidence st !! k) as [q|] eqn:Hq; [|done].
      destruct (decide (k = key)) as [->|Hne].
      * destruct (Hkept q Hq) as [-> _]. by rewrite !andb_false_r.
      * by rewrite (bool_decide_elem_of_cons_ne k key rest Hne).
    + assert (keyed_by_header (evidence sa)) as Hkeyed'.
      { rewrite Hdel. intros k' q Hq. apply lookup_delete_Some in Hq as [_ Hq]. eauto. }
      rewrite (IH sa Hkeyed' Hrest), Hdel.
      destruct (decide (k = key)) as [->|Hne].
      * rewrite lookup_delete_eq, Hp, Hdrop.
        rewrite bool_decide_eq_true_2 by (apply elem_of_cons; by left). done.
      * rewrite lookup_delete_ne by done.
        destruct (evidence st !! k) as [q|]; [|done].
        by rewrite (bool_decide_elem_of_cons_ne k key rest Hne).
Qed.

Lemma step_keyed (st st' : Driver) (key : string) :
  keyed_by_header (evidence st) -> step st key = Ok st' ->
  keyed_by_header (evidence st').
Proof.
  intros Hkeyed Hstep.
  destruct (step_effect st st' key Hkeyed Hstep) as [_ [[-> _]|[p [_ [_ ->]]]]]; [done|].
  intros k q Hq. apply lookup_delete_Some in Hq as [_ Hq]. eauto.
Qed.

(** A completed pass: every session it visited and left in the map is
    not dropped, and what the loop does for it did not panic. *)
Lemma pass_settled (order : list string) (st st' : Driver) (k : string) (q : ProofOfRelay) :
  keyed_by_header (evidence st) ->
  pass order st = Ok st' ->
  k ∈ order -> evidence st' !! k = Some q ->
  dropped ctx q = false /\ exists o, claimFor ctx n proofTx q = Ok o.
Proof.
  intros Hkeyed Hpass Hk Hq. split.
  - rewrite (pass_evidence order st st' k Hkeyed Hpass) in Hq.
    destruct (evidence st !! k) as [p|]; [|done].
    rewrite bool_decide_eq_true_2 in Hq by done. cbn [andb] in Hq.
    destruct (dropped ctx p) eqn:Hdrop; [done|]. by injection Hq as <-.
  - revert st Hkeyed Hpass Hk. unfold SendUnverifiedProofs.
    induction order as [|key rest IH]; intros st Hkeyed Hpass Hk.
    + by apply elem_of_nil in Hk.
    + cbn [range] in Hpass.
      destruct (step st key) as [sa|why] eqn:Hstep; [|discriminate].
      pose proof (step_keyed st sa key Hkeyed Hstep) as Hkeyed'.
      destruct (decide (k ∈ rest)) as [Hin|Hnotin]; [by apply (IH sa)|].
      apply elem_of_cons in Hk as [->|?]; [|done].
      pose proof (pass_evidence rest sa st' key Hkeyed' Hpass) as Hev.
      rewrite Hq in Hev.
      destruct (evidence sa !! key) as [p|] eqn:Hp; [|done].
      rewrite bool_decide_eq_false_2 in Hev by done. injection Hev as <-.
      destruct (step_effect st sa key Hkeyed Hstep) as [_ [[Hsame Hkept]|[p [_ [_ Hdel]]]]].
      * rewrite Hsame in Hp. by destruct (Hkept q Hp).
      * rewrite Hdel, lookup_delete_eq in Hp. done.
Qed.




Lemma claims_Permutation (M : gmap string ProofOfRelay) (order order' : list string) :
  order ≡ₚ order' -> claims M order ≡ₚ claims M order'.
Proof. intros Hperm. unfold claimsSent. by rewrite Hperm. Qed.

Lemma claims_single (M : gmap string ProofOfRelay) (key : string) :
  claims M [key] =
    match M !! key with
    | Some p =>
        if dropped ctx p then []
        else match claimFor ctx n proofTx p with
             | Ok (Some tx) => [tx]
             | _ => []
             end
    | None => []
    end.
Proof. unfold claimsSent. cbn [mbind list_bind]. by rewrite app_nil_r. Qed.

End ClaimPassFacts.

Section ClaimPassTheorems.
Context {E : Externals}.
Local Open Scope list_scope.

(** The step that meets a session with relays on an unsupported chain
    does not panic: it deletes the session. *)
Lemma SendUnverifiedProofs_step_drops (ctx : Context) (n : Node)
    (proofTx : TxBuilder -> Header -> Z -> list Z -> option string)
    (st : Driver) (key : string) (p : ProofOfRelay) :
  evidence st !! key = Some p -> dropped ctx p = true ->
  SendUnverifiedProofs_step ctx n proofTx st key = Ok (DeleteProofs (por_Header p) st).
Proof.
  intros Hp Hdrop. rewrite SendUnverifiedProofs_step_cases, Hp, Hdrop. reflexivity.
Qed.


End ClaimPassTheorems.


Ltac sample_holds :=
  unfold Sample.holding; cbn [evidence]; apply lookup_singleton_eq.





(** * Further properties of the keeper *)

(** ** Records in the key-value store *)

Section StoreFacts.
Local Open Scope list_scope.





End StoreFacts.

(** ** Maturity, the proof pass and the expiry sweep *)

Section MatureFacts.
Context {E : Externals}.
Local Open Scope list_scope.

Lemma unverifiedProofsOf_nil (ctx : Context) (address : string) :
  unverifiedProofsOf ctx address = [] <->
  forall header, kv_UnverifiedProofs (ctx_Store ctx) !! (address, header) = None.
Proof.
  unfold unverifiedProofsOf. split.
  - intros Hnil header.
    destruct (kv_UnverifiedProofs (ctx_Store ctx) !! (address, header)) as [m|] eqn:Hm; [|done].
    assert ((address, header, m) ∈ ([] : list (string * Header * MsgProof))) as Hin.
    { rewrite <- Hnil. apply list_elem_of_filter. split; [by apply bool_decide_pack|].
      by apply elem_of_map_to_list. }
    by apply elem_of_nil in Hin.
  - intros Hnone.
    destruct (filter _ _) as [|[[a h] m] rest] eqn:Hfilter; [done|].
    assert ((a, h, m) ∈ filter (fun kv : string * Header * MsgProof =>
                                  bool_decide (kv.1.1 = address))
                          (map_to_list (kv_UnverifiedProofs (ctx_Store ctx)))) as Hin.
    { rewrite Hfilter. apply elem_of_cons. by left. }
    apply list_elem_of_filter in Hin as [Ha Hin].
    apply bool_decide_unpack in Ha. simpl in Ha. subst a.
    apply elem_of_map_to_list in Hin. by rewrite Hnone in Hin.
Qed.


(** X6. The expiry sweep returns exactly when the store holds no
    unverified claim at all, and then leaves the store as it is; with any
    unverified claim stored it panics in the decoder and deletes nothing,
    whatever the height and the claims' age. *)
Theorem DeleteExpiredUnverifiedProofs_returns_iff (ctx : Context) :
  (DeleteExpiredUnverifiedProofs ctx = Ok (ctx_Store ctx) <->
     kv_UnverifiedProofs (ctx_Store ctx) = ∅)
  /\ (DeleteExpiredUnverifiedProofs ctx = Panic "Unmarshal expects a pointer" <->
        kv_UnverifiedProofs (ctx_Store ctx) <> ∅)
  /\ (forall kv, DeleteExpiredUnverifiedProofs ctx = Ok kv -> kv = ctx_Store ctx).
Proof.
  rewrite DeleteExpiredUnverifiedProofs_outcome.
  pose proof (map_to_list_empty_iff (kv_UnverifiedProofs (ctx_Store ctx))) as Hempty.
  destruct (ctx_Store ctx) as [proofs unverified] eqn:Hstore. cbn [kv_Proofs kv_UnverifiedProofs] in *.
  destruct (map_to_list unverified) as [|entry rest].
  - destruct Hempty as [Hempty _]. specialize (Hempty eq_refl). split; [|split].
    + done.
    + split; [discriminate|]. intros Hne. by destruct Hne.
    + by intros kv [= <-].
  - assert (unverified <> ∅) as Hne by (intros Heq; by apply Hempty in Heq).
    split; [|split].
    + split; [discriminate|done].
    + done.
    + discriminate.
Qed.

(** X7. One step of the proof pass never sends a transaction: for a claim
    whose verified proof is in the store it deletes the session's evidence
    and returns; for any other claim it panics. *)
Theorem ClaimProofs_step_returns_iff (ctx : Context) (n : Node)
    (claimTx : TxBuilder -> MerkleProof -> Proof -> option string)
    (st st' : Driver) (proof : MsgProof) :
  ClaimProofs_step ctx n claimTx st proof = Ok st' <->
  (exists verified,
     kv_Proofs (ctx_Store ctx) !! (node_Address n, msg_Header proof) = Some verified)
  /\ st' = {| evidence := delete (Header_HashString (msg_Header proof)) (evidence st);
              sent := sent st |}.
Proof.
  unfold ClaimProofs_step, GetVerifiedProof.
  destruct (kv_Proofs (ctx_Store ctx) !! (node_Address n, msg_Header proof)) as [v|].
  - cbn [MustUnmarshalBinaryBare mbind Result_bind]. unfold DeleteProofs. split.
    + intros [= <-]. eauto.
    + by intros [_ ->].
  - cbn [mbind Result_bind]. rewrite GeneratePseudoRandomProof_outcome.
    split.
    + destruct (newTxBuilderAndCliCtx ctx n); cbn [mbind Result_bind]; discriminate.
    + by intros [[v Hv] _].
Qed.

(** X8. The proof pass returns exactly when the store holds no unverified
    claim of the node, and then changes nothing and sends nothing; with
    any claim of the node stored it panics before looking at it. *)
Theorem ClaimProofs_returns_iff (ctx : Context) (n : Node)
    (claimTx : TxBuilder -> MerkleProof -> Proof -> option string) (st : Driver) :
  (ClaimProofs ctx n claimTx st = Ok st <->
     forall header,
       kv_UnverifiedProofs (ctx_Store ctx) !! (node_Address n, header) = None)
  /\ (forall st', ClaimProofs ctx n claimTx st = Ok st' -> st' = st).
Proof.
  unfold ClaimProofs. rewrite GetMatureUnverifiedProofs_outcome.
  pose proof (unverifiedProofsOf_nil ctx (node_Address n)) as Hnil.
  destruct (unverifiedProofsOf ctx (node_Address n)) as [|entry rest];
    cbn [mbind Result_bind range].
  - split; [|by intros st' [= <-]]. split; [intros _; by apply Hnil|done].
  - split; [|discriminate]. split; [discriminate|].
    intros Hnone. apply Hnil in Hnone. discriminate.
Qed.

(** X9. Without overflow of the product and the sum, which are computed
    in [int64], a claim is ready exactly from the height
    session_block_height + proof_waiting_period * session_frequency on. *)
Theorem ProofIsReadyToClaim_exact (ctx : Context) (sessionBlockHeight : Z) :
  GoInt64.in_range (ProofWaitingPeriod ctx * SessionFrequency ctx) ->
  GoInt64.in_range (ProofWaitingPeriod ctx * SessionFrequency ctx + sessionBlockHeight) ->
  (ProofIsReadyToClaim ctx sessionBlockHeight = true <->
     sessionBlockHeight + ProofWaitingPeriod ctx * SessionFrequency ctx <= BlockHeight ctx)
  /\ (ProofIsReadyToClaim ctx sessionBlockHeight = false <->
        BlockHeight ctx < sessionBlockHeight + ProofWaitingPeriod ctx * SessionFrequency ctx).
Proof.
  intros Hmul Hadd.
  pose proof (ProofIsReadyToClaim_iff ctx sessionBlockHeight Hmul Hadd) as [Hready Hheight].
  set (maturity := sessionBlockHeight + ProofWaitingPeriod ctx * SessionFrequency ctx) in *.
  destruct (ProofIsReadyToClaim ctx sessionBlockHeight).
  - specialize (Hready eq_refl). split; split; intros; done || lia.
  - assert (BlockHeight ctx < maturity) as Hlt.
    { destruct (Z.lt_ge_cases (BlockHeight ctx) maturity) as [|Hge]; [done|].
      discriminate Hheight. lia. }
    split; split; intros; done || lia.
Qed.
End MatureFacts.

(** Session begun at height 10, waiting period 2, frequency 5: ready from
    height 20 on, seen from height 23. *)
Lemma ProofIsReadyToClaim_exact_witness :
  (ProofIsReadyToClaim (Sample.ctxAt 23 Sample.emptyStore) 10 = true <->
     10 + ProofWaitingPeriod (Sample.ctxAt 23 Sample.emptyStore)
          * SessionFrequency (Sample.ctxAt 23 Sample.emptyStore)
       <= BlockHeight (Sample.ctxAt 23 Sample.emptyStore))
  /\ (ProofIsReadyToClaim (Sample.ctxAt 23 Sample.emptyStore) 10 = false <->
        BlockHeight (Sample.ctxAt 23 Sample.emptyStore)
        < 10 + ProofWaitingPeriod (Sample.ctxAt 23 Sample.emptyStore)
               * SessionFrequency (Sample.ctxAt 23 Sample.emptyStore)).
Proof.
  apply (ProofIsReadyToClaim_exact (Sample.ctxAt 23 Sample.emptyStore) 10).
  - vm_compute. split; discriminate.
  - vm_compute. split; discriminate.
Defined.

(** ** More on the auto-claim pass *)

Section ClaimPassMore.
Context {E : Externals}.
Variables (ctx : Context) (n : Node).
Variable proofTx : TxBuilder -> Header -> Z -> list Z -> option string.
Local Open Scope list_scope.

Local Abbreviation pass := (SendUnverifiedProofs ctx n proofTx).
Local Abbreviation claims := (claimsSent ctx n proofTx).

(** What the loop sends for a kept session, in terms of the store, the
    node's account, the Merkle root and the answer of the callback. *)
Lemma claimFor_sends (p : ProofOfRelay) (tx : Tx) :
  claimFor ctx n proofTx p = Ok (Some tx) <->
  kv_UnverifiedProofs (ctx_Store ctx) !! (node_Address n, por_Header p) = None
  /\ exists txBuilder root,
       newTxBuilderAndCliCtx ctx n = Ok txBuilder
       /\ GetMerkleRoot (por_Tree p) = Success root
       /\ proofTx txBuilder (por_Header p) (por_TotalRelays p) root = None
       /\ tx = TxProof txBuilder (por_Header p) (por_TotalRelays p) root.
Proof.
  unfold claimFor, GetUnverfiedProof.
  destruct (kv_UnverifiedProofs (ctx_Store ctx) !! (node_Address n, por_Header p)) as [m|].
  { cbn [MustUnmarshalBinaryBare mbind Result_bind]. split; [discriminate|by intros [? _]]. }
  cbn [mbind Result_bind].
  destruct (newTxBuilderAndCliCtx ctx n) as [b|why]; cbn [mbind Result_bind].
  2:{ split; [discriminate|]. intros [_ (b & root & ? & _)]. discriminate. }
  destruct (GetMerkleRoot (por_Tree p)) as [root|e]; cbn [must mbind Result_bind].
  2:{ split; [discriminate|]. intros [_ (b' & root & _ & ? & _)]. discriminate. }
  destruct (proofTx b (por_Header p) (por_TotalRelays p) root) eqn:Htx.
  - split; [discriminate|]. intros [_ (b' & root' & [= <-] & [= <-] & Hnone & _)].
    rewrite Htx in Hnone. discriminate.
  - split.
    + intros [= <-]. split; [done|]. by exists b, root.
    + intros [_ (b' & root' & [= <-] & [= <-] & _ & ->)]. done.
Qed.

Lemma claimFor_returns (p : ProofOfRelay) :
  (exists o, claimFor ctx n proofTx p = Ok o) <->
  (kv_UnverifiedProofs (ctx_Store ctx) !! (node_Address n, por_Header p) = None ->
   exists txBuilder root,
     newTxBuilderAndCliCtx ctx n = Ok txBuilder
     /\ GetMerkleRoot (por_Tree p) = Success root
     /\ proofTx txBuilder (por_Header p) (por_TotalRelays p) root = None).
Proof.
  split.
  - intros [[tx|] Ho] Hnone.
    + apply claimFor_sends in Ho as [_ (b & root & ? & ? & ? & _)]. by exists b, root.
    + unfold claimFor, GetUnverfiedProof in Ho. rewrite Hnone in Ho.
      cbn [mbind Result_bind] in Ho.
      destruct (newTxBuilderAndCliCtx ctx n) as [b|]; cbn [mbind Result_bind] in Ho;
        [|discriminate].
      destruct (GetMerkleRoot (por_Tree p)) as [root|]; cbn [must mbind Result_bind] in Ho;
        [|discriminate].
      destruct (proofTx b (por_Header p) (por_TotalRelays p) root); discriminate.
  - intros Hok.
    destruct (kv_UnverifiedProofs (ctx_Store ctx) !! (node_Address n, por_Header p))
      as [m|] eqn:Hm.
    + exists None. unfold claimFor, GetUnverfiedProof. by rewrite Hm.
    + destruct (Hok eq_refl) as (b & root & Hb & Hroot & Htx).
      exists (Some (TxProof b (por_Header p) (por_TotalRelays p) root)).
      apply claimFor_sends. split; [done|]. by exists b, root.
Qed.

Lemma elem_of_claims (M : gmap string ProofOfRelay) (order : list string) (tx : Tx) :
  tx ∈ claims M order <->
  exists key p, key ∈ order /\ M !! key = Some p /\ dropped ctx p = false
                /\ claimFor ctx n proofTx p = Ok (Some tx).
Proof.
  induction order as [|key rest IH].
  - split; [by intros ?%elem_of_nil|]. intros (k & p & Hk & _). by apply elem_of_nil in Hk.
  - rewrite claims_cons, elem_of_app, IH, claims_single. split.
    + intros [Hhere|(k & p & Hk & Hrest)].
      * destruct (M !! key) as [p|] eqn:Hp; [|by apply elem_of_nil in Hhere].
        destruct (dropped ctx p) eqn:Hdrop; [by apply elem_of_nil in Hhere|].
        destruct (claimFor ctx n proofTx p) as [[tx'|]|why] eqn:Hclaim;
          try by apply elem_of_nil in Hhere.
        apply list_elem_of_singleton in Hhere as ->.
        exists key, p. split; [apply elem_of_cons; by left|done].
      * exists k, p. split; [apply elem_of_cons; by right|done].
    + intros (k & p & Hk & Hp & Hdrop & Hclaim).
      apply elem_of_cons in Hk as [->|Hk].
      * left. rewrite Hp, Hdrop, Hclaim. by apply list_elem_of_singleton.
      * right. by exists k, p.
Qed.

(** The pass returns exactly when the claim step of no visited, kept
    session panics. *)
Lemma pass_returns (order : list string) (st : Driver) :
  keyed_by_header (evidence st) ->
  (exists st', pass order st = Ok st') <->
  (forall k p, k ∈ order -> evidence st !! k = Some p -> dropped ctx p = false ->
     exists o, claimFor ctx n proofTx p = Ok o).
Proof.
  intros Hkeyed. split.
  - intros [st' Hpass] k p Hk Hp Hdrop.
    apply (pass_settled ctx n proofTx order st st' k p Hkeyed Hpass Hk).
    rewrite (pass_evidence ctx n proofTx order st st' k Hkeyed Hpass), Hp, Hdrop.
    by rewrite andb_false_r.
  - clear Hkeyed. unfold SendUnverifiedProofs. revert st.
    induction order as [|key rest IH]; intros st Hok; [by exists st|].
    cbn [range]. rewrite SendUnverifiedProofs_step_cases.
    assert (forall sa : Driver,
              (forall k q, evidence sa !! k = Some q -> evidence st !! k = Some q) ->
              exists st', range (SendUnverifiedProofs_step ctx n proofTx) rest sa = Ok st')
      as Hrest.
    { intros sa Hsub. apply IH. intros k q Hk Hq. apply (Hok k q); [|by apply Hsub].
      apply elem_of_cons. by right. }
    destruct (evidence st !! key) as [p|] eqn:Hp; [|by apply Hrest].
    destruct (dropped ctx p) eqn:Hdrop.
    + apply Hrest. unfold DeleteProofs. cbn [evidence]. intros k q Hq.
      by apply lookup_delete_Some in Hq as [_ Hq].
    + destruct (Hok key p) as [[tx|] ->]; [apply elem_of_cons; by left|done|done|..];
        by apply Hrest.
Qed.

(** X10. A session whose claim is already in the store is skipped: a
    completed pass has sent no claim transaction for its header, and has
    kept the session in the evidence map unless the guard of the
    unsupported chain deleted it. *)
Theorem SendUnverifiedProofs_skips_claimed (order : list string) (st st' : Driver)
    (key : string) (p : ProofOfRelay) (msg : MsgProof) :
  keyed_by_header (evidence st) ->
  evidence st !! key = Some p ->
  kv_UnverifiedProofs (ctx_Store ctx) !! (node_Address n, por_Header p) = Some msg ->
  SendUnverifiedProofs ctx n proofTx order st = Ok st' ->
  (exists new, sent st' = sent st ++ new
     /\ forall tx, tx ∈ new -> tx_header tx <> Some (por_Header p))
  /\ (dropped ctx p = false -> evidence st' !! key = Some p).
Proof.
  intros Hkeyed Hp Hclaimed Hpass. split.
  - exists (claims (evidence st) order). split; [by apply pass_sent|].
    intros tx Htx Hheader.
    apply elem_of_claims in Htx as (key' & q & _ & Hq & _ & Hclaim).
    pose proof (claimFor_header ctx n proofTx q tx Hclaim) as Hheader'.
    rewrite Hheader in Hheader'. injection Hheader' as Heq.
    apply claimFor_sends in Hclaim as [Hnone _]. rewrite <- Heq, Hclaimed in Hnone. done.
  - intros Hdrop.
    rewrite (pass_evidence ctx n proofTx order st st' key Hkeyed Hpass), Hp, Hdrop.
    by rewrite andb_false_r.
Qed.

(** X11. For every session a completed pass visits and keeps, and whose
    claim is not in the store, the pass has sent the claim transaction:
    the session's header, its relay count and the Merkle root of its tree,
    under the transaction builder of the node's account. *)
Theorem SendUnverifiedProofs_claims_unclaimed (order : list string) (st st' : Driver)
    (key : string) (p : ProofOfRelay) :
  keyed_by_header (evidence st) ->
  evidence st !! key = Some p ->
  key ∈ order ->
  dropped ctx p = false ->
  kv_UnverifiedProofs (ctx_Store ctx) !! (node_Address n, por_Header p) = None ->
  SendUnverifiedProofs ctx n proofTx order st = Ok st' ->
  exists txBuilder root,
    newTxBuilderAndCliCtx ctx n = Ok txBuilder
    /\ GetMerkleRoot (por_Tree p) = Success root
    /\ proofTx txBuilder (por_Header p) (por_TotalRelays p) root = None
    /\ TxProof txBuilder (por_Header p) (por_TotalRelays p) root ∈ sent st'
    /\ evidence st' !! key = Some p.
Proof.
  intros Hkeyed Hp Hkey Hdrop Hnone Hpass.
  assert (evidence st' !! key = Some p) as Hkept.
  { rewrite (pass_evidence ctx n proofTx order st st' key Hkeyed Hpass), Hp, Hdrop.
    by rewrite andb_false_r. }
  destruct (pass_settled ctx n proofTx order st st' key p Hkeyed Hpass Hkey Hkept)
    as [_ Hreturns].
  destruct (proj1 (claimFor_returns p) Hreturns Hnone) as (b & root & Hb & Hroot & Htx).
  exists b, root. repeat split; try done.
  rewrite (pass_sent ctx n proofTx order st st' Hkeyed Hpass). apply elem_of_app. right.
  apply elem_of_claims. exists key, p. repeat split; try done.
  apply claimFor_sends. split; [done|]. by exists b, root.
Qed.

(** X12. The outcome does not depend on the order in which the map is
    ranged over: if the pass returns for one order of the keys, it returns
    for every rearrangement of it, with the same evidence map and the same
    transactions up to their order. *)
Theorem SendUnverifiedProofs_any_order (order order' : list string) (st st1 : Driver) :
  keyed_by_header (evidence st) ->
  order ≡ₚ order' ->
  SendUnverifiedProofs ctx n proofTx order st = Ok st1 ->
  exists st2, SendUnverifiedProofs ctx n proofTx order' st = Ok st2
    /\ evidence st2 = evidence st1
    /\ sent st2 ≡ₚ sent st1.
Proof.
  intros Hkeyed Hperm Hpass.
  destruct (proj2 (pass_returns order' st Hkeyed)) as [st2 Hpass2].
  { intros k p Hk. apply (proj1 (pass_returns order st Hkeyed)); [eauto|].
    by rewrite Hperm. }
  exists st2. split; [done|]. split.
  - apply map_eq. intros k.
    rewrite (pass_evidence ctx n proofTx order' st st2 k Hkeyed Hpass2),
            (pass_evidence ctx n proofTx order st st1 k Hkeyed Hpass).
    destruct (evidence st !! k); [|done].
    by rewrite (bool_decide_ext (k ∈ order') (k ∈ order)) by (by rewrite Hperm).
  - rewrite (pass_sent ctx n proofTx order' st st2 Hkeyed Hpass2),
            (pass_sent ctx n proofTx order st st1 Hkeyed Hpass).
    apply Permutation_app_head, claims_Permutation. by symmetry.
Qed.

(** X13. The pass returns exactly when, for every session it visits and
    keeps whose claim is not in the store, the node's account exists, the
    Merkle root of the session's tree is given and the callback reports no
    error; in every other case it panics. *)
Theorem SendUnverifiedProofs_returns_iff (order : list string) (st : Driver) :
  keyed_by_header (evidence st) ->
  (exists st', SendUnverifiedProofs ctx n proofTx order st = Ok st') <->
  (forall key p,
     key ∈ order -> evidence st !! key = Some p -> dropped ctx p = false ->
     kv_UnverifiedProofs (ctx_Store ctx) !! (node_Address n, por_Header p) = None ->
     exists txBuilder root,
       newTxBuilderAndCliCtx ctx n = Ok txBuilder
       /\ GetMerkleRoot (por_Tree p) = Success root
       /\ proofTx txBuilder (por_Header p) (por_TotalRelays p) root = None).
Proof.
  intros Hkeyed. rewrite (pass_returns order st Hkeyed). split.
  - intros Hok key p Hkey Hp Hdrop. apply claimFor_returns. eauto.
  - intros Hok key p Hkey Hp Hdrop. apply claimFor_returns. eauto.
Qed.

(** X14. A completed pass only removes sessions: every session of the
    resulting evidence map was in the map before, unchanged; a session
    that is gone was visited, had relays and a chain that is not
    supported at its session height; and the transactions sent before the
    pass are still the first ones of the list. *)
Theorem SendUnverifiedProofs_only_drops (order : list string) (st st' : Driver) :
  keyed_by_header (evidence st) ->
  SendUnverifiedProofs ctx n proofTx order st = Ok st' ->
  (forall key q, evidence st' !! key = Some q -> evidence st !! key = Some q)
  /\ (forall key p, evidence st !! key = Some p -> evidence st' !! key = None ->
        key ∈ order
        /\ IsPocketSupportedBlockchain
             (WithBlockHeight ctx (SessionBlockHeight (por_Header p)))
             (Chain (por_Header p)) = false
        /\ 0 < por_TotalRelays p)
  /\ exists new, sent st' = sent st ++ new.
Proof.
  intros Hkeyed Hpass.
  pose proof (fun k => pass_evidence ctx n proofTx order st st' k Hkeyed Hpass) as Hev.
  split; [|split].
  - intros key q Hq. rewrite Hev in Hq. destruct (evidence st !! key) as [p|]; [|done].
    destruct (_ && _); [done|]. by injection Hq as <-.
  - intros key p Hp Hgone. rewrite Hev, Hp in Hgone.
    destruct (bool_decide (key ∈ order)) eqn:Hin; [|done]. cbn [andb] in Hgone.
    destruct (dropped ctx p) eqn:Hdrop; [|done].
    apply bool_decide_eq_true in Hin. split; [done|].
    unfold dropped in Hdrop. apply andb_true_iff in Hdrop as [Hchain Hrelays].
    apply negb_true_iff in Hchain. apply Z.gtb_lt in Hrelays. done.
  - exists (claims (evidence st) order). by apply pass_sent.
Qed.
End ClaimPassMore.

(** The evidence maps of [Sample] hold their sessions under the hash of
    the header. *)
Ltac sample_keyed :=
  let Hk := fresh "Hk" in
  intros ? ? Hk; unfold Sample.holding, Sample.holdingTwo in Hk; cbn [evidence] in Hk;
  repeat (apply lookup_insert_Some in Hk as [[<- <-]|[_ Hk]]; [reflexivity|]);
  first [ apply lookup_singleton_Some in Hk as [<- <-]; reflexivity
        | by rewrite lookup_empty in Hk ].

(** The claim of the session is on chain: the pass sends nothing for it
    and keeps the session. *)
Lemma SendUnverifiedProofs_skips_claimed_witness :
  (exists new,
     sent (Sample.holding Sample.header [0; 1; 2; 3])
     = (sent (Sample.holding Sample.header [0; 1; 2; 3]) ++ new)%list
     /\ forall tx, tx ∈ new ->
          tx_header tx <> Some (por_Header (Sample.session Sample.header [0; 1; 2; 3])))
  /\ (dropped (Sample.ctxAt 15 Sample.claimedStore)
        (Sample.session Sample.header [0; 1; 2; 3]) = false ->
      evidence (Sample.holding Sample.header [0; 1; 2; 3]) !! Sample.key Sample.header
      = Some (Sample.session Sample.header [0; 1; 2; 3])).
Proof.
  apply (SendUnverifiedProofs_skips_claimed (E := Sample.externals)
           (Sample.ctxAt 15 Sample.claimedStore) Sample.node Sample.proofTx
           [Sample.key Sample.header]
           (Sample.holding Sample.header [0; 1; 2; 3])
           (Sample.holding Sample.header [0; 1; 2; 3])
           (Sample.key Sample.header)
           (Sample.session Sample.header [0; 1; 2; 3]) Sample.claim).
  - sample_keyed.
  - sample_holds.
  - apply lookup_singleton_eq.
  - vm_compute. reflexivity.
Defined.

(** No claim on chain: the pass sends the claim of the session. *)
Lemma SendUnverifiedProofs_claims_unclaimed_witness :
  exists txBuilder root,
    newTxBuilderAndCliCtx (Sample.ctxAt 15 Sample.emptyStore) Sample.node = Ok txBuilder
    /\ GetMerkleRoot (Externals := Sample.externals)
         (por_Tree (Sample.session Sample.header [0; 1; 2; 3])) = Success root
    /\ Sample.proofTx txBuilder (por_Header (Sample.session Sample.header [0; 1; 2; 3]))
         (por_TotalRelays (Sample.session Sample.header [0; 1; 2; 3])) root = None
    /\ TxProof txBuilder (por_Header (Sample.session Sample.header [0; 1; 2; 3]))
         (por_TotalRelays (Sample.session Sample.header [0; 1; 2; 3])) root
       ∈ sent {| evidence := evidence (Sample.holding Sample.header [0; 1; 2; 3]);
                 sent := [Sample.claimTransaction] |}
    /\ evidence {| evidence := evidence (Sample.holding Sample.header [0; 1; 2; 3]);
                   sent := [Sample.claimTransaction] |} !! Sample.key Sample.header
       = Some (Sample.session Sample.header [0; 1; 2; 3]).
Proof.
  apply (SendUnverifiedProofs_claims_unclaimed (E := Sample.externals)
           (Sample.ctxAt 15 Sample.emptyStore) Sample.node Sample.proofTx
           [Sample.key Sample.header]
           (Sample.holding Sample.header [0; 1; 2; 3])
           {| evidence := evidence (Sample.holding Sample.header [0; 1; 2; 3]);
              sent := [Sample.claimTransaction] |}
           (Sample.key Sample.header)
           (Sample.session Sample.header [0; 1; 2; 3])).
  - sample_keyed.
  - sample_holds.
  - apply elem_of_cons. by left.
  - reflexivity.
  - apply lookup_empty.
  - vm_compute. reflexivity.
Defined.

(** Two sessions, visited in either order: the session on the chain that
    is not supported is deleted, the other one is claimed. *)
Lemma SendUnverifiedProofs_any_order_witness :
  exists st2,
    SendUnverifiedProofs (E := Sample.externals)
      (Sample.ctxAt 15 Sample.emptyStore) Sample.node Sample.proofTx
      [Sample.key Sample.droppedHeader; Sample.key Sample.header] Sample.holdingTwo = Ok st2
    /\ evidence st2 = evidence {| evidence := evidence (Sample.holding Sample.header [0; 1; 2; 3]);
                                 sent := [Sample.claimTransaction] |}
    /\ sent st2 ≡ₚ sent {| evidence := evidence (Sample.holding Sample.header [0; 1; 2; 3]);
                           sent := [Sample.claimTransaction] |}.
Proof.
  apply (SendUnverifiedProofs_any_order (E := Sample.externals)
           (Sample.ctxAt 15 Sample.emptyStore) Sample.node Sample.proofTx
           [Sample.key Sample.header; Sample.key Sample.droppedHeader]
           [Sample.key Sample.droppedHeader; Sample.key Sample.header]
           Sample.holdingTwo
           {| evidence := evidence (Sample.holding Sample.header [0; 1; 2; 3]);
              sent := [Sample.claimTransaction] |}).
  - sample_keyed.
  - apply perm_swap.
  - vm_compute. reflexivity.
Defined.

Lemma SendUnverifiedProofs_returns_iff_witness :
  (exists st', SendUnverifiedProofs (E := Sample.externals)
                 (Sample.ctxAt 15 Sample.emptyStore) Sample.node Sample.proofTx
                 [Sample.key Sample.header; Sample.key Sample.droppedHeader]
                 Sample.holdingTwo = Ok st') <->
  (forall key p,
     key ∈ [Sample.key Sample.header; Sample.key Sample.droppedHeader] ->
     evidence Sample.holdingTwo !! key = Some p ->
     dropped (Sample.ctxAt 15 Sample.emptyStore) p = false ->
     kv_UnverifiedProofs (ctx_Store (Sample.ctxAt 15 Sample.emptyStore))
       !! (node_Address Sample.node, por_Header p) = None ->
     exists txBuilder root,
       newTxBuilderAndCliCtx (Sample.ctxAt 15 Sample.emptyStore) Sample.node = Ok txBuilder
       /\ GetMerkleRoot (Externals := Sample.externals) (por_Tree p) = Success root
       /\ Sample.proofTx txBuilder (por_Header p) (por_TotalRelays p) root = None).
Proof.
  apply (SendUnverifiedProofs_returns_iff (E := Sample.externals)
           (Sample.ctxAt 15 Sample.emptyStore) Sample.node Sample.proofTx
           [Sample.key Sample.header; Sample.key Sample.droppedHeader]
           Sample.holdingTwo).
  sample_keyed.
Defined.

Lemma SendUnverifiedProofs_only_drops_witness :
  (forall key q,
     evidence {| evidence := evidence (Sample.holding Sample.header [0; 1; 2; 3]);
                 sent := [Sample.claimTransaction] |} !! key = Some q ->
     evidence Sample.holdingTwo !! key = Some q)
  /\ (forall key p,
        evidence Sample.holdingTwo !! key = Some p ->
        evidence {| evidence := evidence (Sample.holding Sample.header [0; 1; 2; 3]);
                    sent := [Sample.claimTransaction] |} !! key = None ->
        key ∈ [Sample.key Sample.header; Sample.key Sample.droppedHeader]
        /\ IsPocketSupportedBlockchain
             (WithBlockHeight (Sample.ctxAt 15 Sample.emptyStore)
                (SessionBlockHeight (por_Header p))) (Chain (por_Header p)) = false
        /\ 0 < por_TotalRelays p)
  /\ exists new,
       sent {| evidence := evidence (Sample.holding Sample.header [0; 1; 2; 3]);
               sent := [Sample.claimTransaction] |}
       = (sent Sample.holdingTwo ++ new)%list.
Proof.
  apply (SendUnverifiedProofs_only_drops (E := Sample.externals)
           (Sample.ctxAt 15 Sample.emptyStore) Sample.node Sample.proofTx
           [Sample.key Sample.header; Sample.key Sample.droppedHeader]
           Sample.holdingTwo
           {| evidence := evidence (Sample.holding Sample.header [0; 1; 2; 3]);
              sent := [Sample.claimTransaction] |}).
  - sample_keyed.
  - vm_compute. reflexivity.
Defined.

(** ** The loop of the pseudorandom index, on concrete digits *)

(** Sixteen digits that fit a signed 64 bit integer: the loop is the scan
    of the specification. *)
Lemma pseudoRandomLoop_sixteen_digits_witness :
  pseudoRandomLoop 16 0 "040eb7aa2a9935de" 20 =
    if hex_value "040eb7aa2a9935de" <? 2 ^ 63
    then Ok (reference_scan 16 0 "040eb7aa2a9935de" 20)
    else Panic "strconv.ParseInt".
Proof.
  apply (pseudoRandomLoop_sixteen_digits "040eb7aa2a9935de" 20); reflexivity.
Defined.

(** With twenty relays the loop stops at the last digit, [e]. *)
Lemma pseudoRandomLoop_in_range_witness :
  (0 < 20 -> 0 <= 14 < 20) /\ (20 <= 0 -> 14 = 0).
Proof.
  apply (pseudoRandomLoop_in_range 16 0 "040eb7aa2a9935de" 20 14).
  - reflexivity.
  - vm_compute. reflexivity.
Defined.

(** ** Network identifiers written by the encoder *)

Lemma bytes_read_back :
  forallb (fun k => byte_reads_back (Z.of_nat k)) (seq 0 256) = true.
Proof. vm_compute. reflexivity. Qed.

Lemma byte_reads_back_in_range (b : Z) : 0 <= b < 256 -> byte_reads_back b = true.
Proof.
  intros Hb. pose proof bytes_read_back as Hall.
  rewrite forallb_forall in Hall. specialize (Hall (Z.to_nat b)).
  rewrite Z2Nat.id in Hall by lia. apply Hall, in_seq. lia.
Qed.

Lemma Decode_EncodeToString (bs : list Z) :
  Forall (fun b => 0 <= b < 256) bs ->
  hex.Decode (hex.EncodeToString bs) = Success bs.
Proof.
  induction 1 as [|b bs Hb _ IH]; [done|].
  cbn [hex.EncodeToString hex.Decode].
  pose proof (byte_reads_back_in_range b Hb) as Hback. unfold byte_reads_back in Hback.
  destruct (hex.fromHexChar (hex.hexchar (Z.shiftr b 4))) as [hi|]; [|done].
  destruct (hex.fromHexChar (hex.hexchar (Z.land b 15))) as [lo|]; [|done].
  apply Z.eqb_eq in Hback. by rewrite IH, Hback.
Qed.

(** X17. The hexadecimal encoding of a byte string is a valid network
    identifier exactly when the byte string has one or two bytes; its
    decoding gives the bytes back. *)
Theorem ValidateNetworkIdentifier_of_encoded (bs : list Z) :
  Forall (fun b => 0 <= b < 256) bs ->
  hex.DecodeString (hex.EncodeToString bs) = Success bs
  /\ (ValidateNetworkIdentifier (hex.EncodeToString bs) = None <->
        (1 <= length bs <= 2)%nat)
  /\ (bs = [] -> ValidateNetworkIdentifier (hex.EncodeToString bs) = Some NetIdEmpty)
  /\ ((2 < length bs)%nat ->
        ValidateNetworkIdentifier (hex.EncodeToString bs) = Some NetIdTooLong).
Proof.
  intros Hbytes. pose proof (Decode_EncodeToString bs Hbytes) as Hdec.
  unfold ValidateNetworkIdentifier, hex.DecodeString, NetworkIdentifierLength.
  rewrite Hdec. split; [done|].
  destruct (Nat.eqb_spec (length bs) 0) as [H0|H0].
  - split; [|split].
    + split; [discriminate|lia].
    + done.
    + lia.
  - destruct (Nat.ltb_spec 2 (length bs)).
    + split; [|split]; [split; [discriminate|lia]| |done].
      intros ->. simpl in H0. done.
    + split; [|split]; [split; [intros _; lia|done]| |lia].
      intros ->. simpl in H0. done.
Qed.

Lemma ValidateNetworkIdentifier_of_encoded_witness :
  hex.DecodeString (hex.EncodeToString [0; 33]) = Success [0; 33]
  /\ (ValidateNetworkIdentifier (hex.EncodeToString [0; 33]) = None <->
        (1 <= length [0; 33] <= 2)%nat)
  /\ ([0; 33] = [] -> ValidateNetworkIdentifier (hex.EncodeToString [0; 33]) = Some NetIdEmpty)
  /\ ((2 < length [0; 33])%nat ->
        ValidateNetworkIdentifier (hex.EncodeToString [0; 33]) = Some NetIdTooLong).
Proof.
  apply (ValidateNetworkIdentifier_of_encoded [0; 33]).
  repeat constructor; lia.
Defined.

(** ** Pagination *)

(** X18. [checkPagination] gives back a page of at least 1 and a limit of
    at least 1: values that are positive are kept, any other page becomes
    1 and any other limit 30; checking twice changes nothing more. *)
Theorem checkPagination_defaults (page limit : Z) :
  1 <= (checkPagination page limit).1
  /\ 1 <= (checkPagination page limit).2
  /\ (0 < page -> (checkPagination page limit).1 = page)
  /\ (page <= 0 -> (checkPagination page limit).1 = 1)
  /\ (0 < limit -> (checkPagination page limit).2 = limit)
  /\ (limit <= 0 -> (checkPagination page limit).2 = 30)
  /\ checkPagination (checkPagination page limit).1 (checkPagination page limit).2
     = checkPagination page limit.
Proof.
  unfold checkPagination. cbn [fst snd].
  destruct (Z.leb_spec page 0), (Z.leb_spec limit 0); cbn [fst snd];
    repeat split; intros; try lia;
    repeat match goal with
           | |- context [?a <=? 0] => destruct (Z.leb_spec a 0); try lia
           end; reflexivity.
Qed.

(** ** Service URLs *)

Section SplitFacts.
Variable sep : ascii.

Lemma Split_not_nil (s : string) : strings.Split s sep <> [].
Proof.
  destruct s as [|c rest]; simpl; [done|].
  destruct (Ascii.eqb c sep); [done|]. by destruct (strings.Split rest sep).
Qed.

Lemma Contains_append (a b : string) (c : ascii) :
  strings.Contains (a ++ b) c = strings.Contains a c || strings.Contains b c.
Proof. induction a as [|d a IH]; simpl; [done|]. by rewrite IH, orb_assoc. Qed.

(** Splitting loses nothing: the pieces joined by the separator are the
    string, and no piece holds the separator. *)
Lemma Split_joined (s : string) : joined sep (strings.Split s sep) = s.
Proof.
  induction s as [|c rest IH]; [done|]. cbn [strings.Split].
  pose proof (Split_not_nil rest) as Hne.
  destruct (Ascii.eqb_spec c sep) as [->|Hc].
  - destruct (strings.Split rest sep) as [|piece pieces]; [done|].
    cbn [joined String.append]. by rewrite <- IH.
  - destruct (strings.Split rest sep) as [|piece pieces]; [done|].
    rewrite <- IH. by destruct pieces.
Qed.

Lemma Split_without (s : string) : Forall (without sep) (strings.Split s sep).
Proof.
  unfold without. induction s as [|c rest IH]; [by repeat constructor|].
  cbn [strings.Split]. destruct (Ascii.eqb_spec c sep) as [->|Hc].
  - by constructor.
  - destruct (strings.Split rest sep) as [|piece pieces]; simpl.
    + repeat constructor. simpl. by destruct (Ascii.eqb_spec c sep).
    + inversion IH as [|? ? Hpiece Hpieces]; subst. constructor; [|done].
      simpl. by destruct (Ascii.eqb_spec c sep).
Qed.

Lemma Split_whole (a : string) : without sep a -> strings.Split a sep = [a].
Proof.
  unfold without. induction a as [|c a IH]; [done|]. simpl.
  destruct (Ascii.eqb c sep); [done|]. simpl. intros Ha. by rewrite IH.
Qed.

Lemma Split_piece (a rest : string) :
  without sep a ->
  strings.Split (a ++ String sep rest) sep = a :: strings.Split rest sep.
Proof.
  unfold without. induction a as [|c a IH]; simpl.
  - intros _. by rewrite Ascii.eqb_refl.
  - destruct (Ascii.eqb c sep); [done|]. simpl. intros Ha. by rewrite IH.
Qed.

(** The string is split in three exactly when it is three pieces without
    the separator, put together with it. *)
Lemma Split_three (s a b c : string) :
  strings.Split s sep = [a; b; c] <->
  s = a ++ String sep (b ++ String sep c)
  /\ without sep a /\ without sep b /\ without sep c.
Proof.
  split.
  - intros Hsplit. pose proof (Split_joined s) as Hjoin.
    pose proof (Split_without s) as Hwithout. rewrite Hsplit in Hjoin, Hwithout.
    inversion Hwithout as [|? ? Ha Hrest]; subst.
    inversion Hrest as [|? ? Hb Hrest']; subst.
    inversion Hrest' as [|? ? Hc _]; subst. done.
  - intros (-> & Ha & Hb & Hc).
    by rewrite (Split_piece a _ Ha), (Split_piece b _ Hb), (Split_whole c Hc).
Qed.

(** The text before the first separator is determined. *)
Lemma first_piece (a a' rest rest' : string) :
  without sep a -> without sep a' ->
  a ++ String sep rest = a' ++ String sep rest' -> a = a' /\ rest = rest'.
Proof.
  unfold without. revert a'. induction a as [|c a IH]; intros [|c' a']; simpl.
  - intros _ _ [= <-]. done.
  - intros _ Ha' [= <- _]. rewrite Ascii.eqb_refl in Ha'. done.
  - intros Ha _ [= -> _]. rewrite Ascii.eqb_refl in Ha. done.
  - intros Ha Ha' [= <- Heq].
    apply orb_false_iff in Ha as [_ Ha]. apply orb_false_iff in Ha' as [_ Ha'].
    destruct (IH a' Ha Ha' Heq) as [-> ->]. done.
Qed.
End SplitFacts.

Lemma append_String (c : ascii) (a b : string) :
  String c a ++ b = String c (a ++ b).
Proof. reflexivity. Qed.

Lemma take_drop_string (k : nat) (s : string) :
  take_string k s ++ drop_string k s = s.
Proof.
  revert s. induction k as [|k IH]; intros [|c s]; try done.
  cbn [take_string drop_string]. by rewrite append_String, IH.
Qed.

Lemma length_take_string (k : nat) (s : string) :
  (k <= String.length s)%nat -> String.length (take_string k s) = k.
Proof.
  revert s. induction k as [|k IH]; intros [|c s]; simpl; try done; try lia.
  intros Hk. rewrite IH; lia.
Qed.

Lemma take_string_append (p rest : string) :
  take_string (String.length p) (p ++ rest) = p.
Proof.
  induction p as [|c p IH]; [by destruct rest|].
  rewrite append_String. cbn [String.length take_string]. by rewrite IH.
Qed.

Lemma length_append (a b : string) :
  String.length (a ++ b) = (String.length a + String.length b)%nat.
Proof.
  induction a as [|c a IH]; [done|].
  rewrite append_String. cbn [String.length]. by rewrite IH.
Qed.

Lemma slice_to_cases (s : string) (k : nat) :
  ((k <= String.length s)%nat /\ slice_to s k = Ok (take_string k s))
  \/ ((String.length s < k)%nat /\ slice_to s k = Panic "slice bounds out of range").
Proof.
  unfold slice_to. destruct (Nat.leb_spec k (String.length s)); [by left|by right].
Qed.

Section ServiceURLFacts.
Variable ToLower : string -> string.
Variable ParseRequestURI : string -> bool.

Lemma https_is_not_http (r : ascii) (rest : string) :
  String.eqb (take_string 8 (httpPrefix ++ String r rest)) httpsPrefix = false.
Proof. reflexivity. Qed.

Lemma http_prefix_taken (rest : string) :
  take_string 7 (httpPrefix ++ rest) = httpPrefix.
Proof. apply (take_string_append httpPrefix rest). Qed.

Lemma https_prefix_taken (rest : string) :
  take_string 8 (httpsPrefix ++ rest) = httpsPrefix.
Proof. apply (take_string_append httpsPrefix rest). Qed.

(** X19. A service URL is accepted exactly when, in lower case, the
    request-URI parser takes it, it starts with [https://] or [http://],
    it consists of three pieces separated by two colons, the piece after
    the second colon being read by [Atoi] as a port from 0 to 65535, and
    it holds a period. *)
Theorem ValidateServiceURL_accepts_exactly (u : string) :
  ValidateServiceURL ToLower ParseRequestURI u = Ok None <->
  ParseRequestURI (ToLower u) = true
  /\ (exists rest, ToLower u = httpsPrefix ++ rest \/ ToLower u = httpPrefix ++ rest)
  /\ (exists a b c port,
        ToLower u = a ++ String colon (b ++ String colon c)
        /\ without colon a /\ without colon b /\ without colon c
        /\ decimal.Atoi c = Success port /\ 0 <= port <= 65535)
  /\ strings.Contains (ToLower u) period = true.
Proof.
  unfold ValidateServiceURL. set (v := ToLower u). split.
  - destruct (ParseRequestURI v); [|discriminate]. cbn [negb].
    destruct (slice_to_cases v 8) as [[Hlen ->]|[_ ->]]; [|discriminate].
    cbn [mbind Result_bind].
    destruct (String.eqb_spec (take_string 8 v) httpsPrefix) as [Hhttps|Hnot];
      cbn [negb mbind Result_bind].
    + intros Hrest. split; [done|]. split.
      { exists (drop_string 8 v). left. by rewrite <- Hhttps, take_drop_string. }
      revert Hrest.
      destruct (strings.Split v colon) as [|a [|b [|c [|d rest]]]] eqn:Hsplit;
        cbn [length Nat.eqb negb nth]; try discriminate.
      apply Split_three in Hsplit as (Hv & Ha & Hb & Hc).
      destruct (decimal.Atoi c) as [port|e] eqn:Hport; [|discriminate].
      destruct (Z.gtb_spec port 65535); [discriminate|].
      destruct (Z.ltb_spec port 0); [discriminate|]. cbn [orb].
      destruct (strings.Contains v period) eqn:Hperiod; [|discriminate].
      intros _. split; [|done]. exists a, b, c, port. repeat split; try done; lia.
    + destruct (slice_to_cases v 7) as [[_ ->]|[Hshort _]]; [|lia].
      cbn [mbind Result_bind].
      destruct (String.eqb_spec (take_string 7 v) httpPrefix) as [Hhttp|]; [|discriminate].
      cbn [negb]. intros Hrest. split; [done|]. split.
      { exists (drop_string 7 v). right. by rewrite <- Hhttp, take_drop_string. }
      revert Hrest.
      destruct (strings.Split v colon) as [|a [|b [|c [|d rest]]]] eqn:Hsplit;
        cbn [length Nat.eqb negb nth]; try discriminate.
      apply Split_three in Hsplit as (Hv & Ha & Hb & Hc).
      destruct (decimal.Atoi c) as [port|e] eqn:Hport; [|discriminate].
      destruct (Z.gtb_spec port 65535); [discriminate|].
      destruct (Z.ltb_spec port 0); [discriminate|]. cbn [orb].
      destruct (strings.Contains v period) eqn:Hperiod; [|discriminate].
      intros _. split; [|done]. exists a, b, c, port. repeat split; try done; lia.
  - intros (-> & [rest Hprefix] & (a & b & c & port & Hv & Ha & Hb & Hc & Hport & Hrange)
            & Hperiod).
    cbn [negb].
    assert (strings.Split v colon = [a; b; c]) as Hsplit by (by apply Split_three).
    assert (slice_to v 8 = Ok (take_string 8 v)
            /\ (String.eqb (take_string 8 v) httpsPrefix = true
                \/ String.eqb (take_string 8 v) httpsPrefix = false
                   /\ slice_to v 7 = Ok (take_string 7 v)
                   /\ String.eqb (take_string 7 v) httpPrefix = true))
      as [-> Hcases].
    { destruct Hprefix as [Hhttps|Hhttp].
      - split.
        + destruct (slice_to_cases v 8) as [[_ ->]|[Hshort _]]; [done|].
          rewrite Hhttps, length_append in Hshort. simpl in Hshort. lia.
        + left. rewrite Hhttps, https_prefix_taken. reflexivity.
      - assert (a = "http" /\ b ++ String colon c = "//" ++ rest) as [-> Htail].
        { apply (first_piece colon a "http" _ _ Ha eq_refl). by rewrite <- Hv, Hhttp. }
        destruct rest as [|r rest].
        { assert (strings.Contains (b ++ String colon c) colon = true) as Hcolon.
          { rewrite Contains_append. simpl. by rewrite orb_true_r. }
          rewrite Htail in Hcolon. discriminate Hcolon. }
        assert (8 <= String.length v)%nat as Hlen.
        { rewrite Hhttp, length_append. simpl. lia. }
        split.
        + destruct (slice_to_cases v 8) as [[_ ->]|[Hshort _]]; [done|lia].
        + right. split; [rewrite Hhttp; apply https_is_not_http|]. split.
          * destruct (slice_to_cases v 7) as [[_ ->]|[Hshort _]]; [done|lia].
          * rewrite Hhttp, http_prefix_taken. reflexivity. }
    cbn [mbind Result_bind].
    assert ((if negb (length (strings.Split v colon) =? 3)%nat
             then Ok (Some NeedsPort)
             else match decimal.Atoi (nth 2 (strings.Split v colon) EmptyString) with
                  | Success port0 =>
                      if (port0 >? 65535) || (port0 <? 0) then Ok (Some PortOutOfRange)
                      else if negb (strings.Contains v period) then Ok (Some NoPeriod)
                           else Ok None
                  | Failure _ => Ok (Some PortNotInteger)
                  end) = Ok (None : option ServiceURLError)) as Hrest.
    { rewrite Hsplit. cbn [length Nat.eqb negb nth]. rewrite Hport.
      destruct (Z.gtb_spec port 65535); [lia|]. destruct (Z.ltb_spec port 0); [lia|].
      cbn [orb]. by rewrite Hperiod. }
    destruct Hcases as [->|(-> & -> & Hhttp)]; cbn [negb mbind Result_bind].
    + exact Hrest.
    + rewrite Hhttp. cbn [negb]. exact Hrest.
Qed.

(** X20. A URL of fewer than eight characters that the request-URI
    parser takes makes the validation panic, in the slice [u[:8]] that is
    compared with [https://]. *)
Theorem ValidateServiceURL_short_panics (u : string) :
  ParseRequestURI (ToLower u) = true ->
  (String.length (ToLower u) < 8)%nat ->
  ValidateServiceURL ToLower ParseRequestURI u = Panic "slice bounds out of range".
Proof.
  intros Hparsed Hshort. unfold ValidateServiceURL. rewrite Hparsed. cbn [negb].
  destruct (slice_to_cases (ToLower u) 8) as [[Hlen _]|[_ ->]]; [lia|]. reflexivity.
Qed.
End ServiceURLFacts.

(** A path of four characters, taken by a parser that takes everything. *)
Lemma ValidateServiceURL_short_panics_witness :
  ValidateServiceURL (fun s => s) (fun _ => true) "/a.b" = Panic "slice bounds out of range".
Proof.
  apply (ValidateServiceURL_short_panics (fun s => s) (fun _ => true) "/a.b").
  - reflexivity.
  - simpl. lia.
Defined.
